(** * stem.connection: PROTOCOLINFO parsing and authentication handshakes

    A shallow embedding of [stem/connection.py] (Python 2).  Python strings
    are [string]; Python exceptions are values of [Exn] carried in the left
    summand of a result; calls that touch the outside world (the control
    socket, the file system, the process table, the logger) run in a small
    state-and-error monad whose state records what was done. *)

From Stdlib Require Import String Ascii List ZArith Lia Bool DecimalString.
Import ListNotations.
Local Open Scope string_scope.
Local Open Scope Z_scope.

(** ** Python string primitives used by the module *)

Module Py.

Definition dquote : ascii := "034"%char.
Definition backslash : ascii := "092"%char.

(** [s.startswith(p)] *)
Definition startswith (s p : string) : bool := String.prefix p s.

(** Membership test for the characters [str.lstrip()] removes. *)
Definition isspace (c : ascii) : bool :=
  match c with
  | " "%char | "009"%char | "010"%char | "011"%char | "012"%char | "013"%char => true
  | _ => false
  end.

(** [s.lstrip()] *)
Fixpoint lstrip (s : string) : string :=
  match s with
  | String c s' => if isspace c then lstrip s' else s
  | EmptyString => EmptyString
  end.

(** [s.split(sep, 1)] when [sep in s]; [None] when [sep] does not occur. *)
Fixpoint split_once (sep : ascii) (s : string) : option (string * string) :=
  match s with
  | EmptyString => None
  | String c s' =>
      if Ascii.eqb c sep then Some (EmptyString, s')
      else match split_once sep s' with
           | Some (a, b) => Some (String c a, b)
           | None => None
           end
  end.

(** [s.split(sep)]: always at least one piece. *)
Fixpoint split (sep : ascii) (s : string) : list string :=
  match s with
  | EmptyString => [EmptyString]
  | String c s' =>
      if Ascii.eqb c sep then EmptyString :: split sep s'
      else match split sep s' with
           | p :: ps => String c p :: ps
           | [] => [String c EmptyString]
           end
  end.

Definition is_digit (c : ascii) : bool :=
  let n := N_of_ascii c in (48 <=? n)%N && (n <=? 57)%N.

Fixpoint all_digits (s : string) : bool :=
  match s with
  | EmptyString => true
  | String c s' => is_digit c && all_digits s'
  end.

(** [s.isdigit()]: non-empty and made of decimal digits only. *)
Definition isdigit (s : string) : bool :=
  match s with
  | EmptyString => false
  | _ => all_digits s
  end.

Fixpoint int_acc (acc : Z) (s : string) : Z :=
  match s with
  | EmptyString => acc
  | String c s' => int_acc (10 * acc + (Z.of_N (N_of_ascii c) - 48)) s'
  end.

(** [int(s)] for a string that passed [isdigit]. *)
Definition int (s : string) : Z := int_acc 0 s.

(** ["%i" % n] *)
Definition fmt_i (n : Z) : string := NilZero.string_of_int (Z.to_int n).

(** [s.replace(dquote, backslash + dquote)]: every double quote gets a
    backslash in front of it. *)
Fixpoint escape_quotes (s : string) : string :=
  match s with
  | EmptyString => EmptyString
  | String c s' =>
      if Ascii.eqb c dquote
      then String backslash (String dquote (escape_quotes s'))
      else String c (escape_quotes s')
  end.

Definition hex_digit (n : N) : ascii :=
  if (n <? 10)%N then ascii_of_N (48 + n) else ascii_of_N (87 + n).

(** [binascii.b2a_hex(s)]: two lower-case hexadecimal digits per byte. *)
Fixpoint b2a_hex (s : string) : string :=
  match s with
  | EmptyString => EmptyString
  | String c s' =>
      let n := N_of_ascii c in
      String (hex_digit (n / 16)) (String (hex_digit (n mod 16)) (b2a_hex s'))
  end.

(** [sep.join(parts)] *)
Definition join (sep : string) (parts : list string) : string :=
  String.concat sep parts.

End Py.


(** ** Exceptions

    The classes the module raises or lets through.  [ProtocolError] and
    [SocketError] are the two subclasses of [stem.socket.ControllerError]. *)

Inductive Exn : Type :=
| ValueError (msg : string)
| OSError (msg : string)
| IOError (msg : string)
| IndexError (msg : string)
| ProtocolError (msg : string)
| SocketError (msg : string).

Definition is_ControllerError (e : Exn) : bool :=
  match e with
  | ProtocolError _ | SocketError _ => true
  | _ => false
  end.

Definition is_IOError (e : Exn) : bool :=
  match e with
  | IOError _ => true
  | _ => false
  end.

(** [str(exc)] *)
Definition str_exn (e : Exn) : string :=
  match e with
  | ValueError m | OSError m | IOError m | IndexError m
  | ProtocolError m | SocketError m => m
  end.

(** ** State and exceptions

    A computation takes the current state and gives back either the raised
    exception or the returned value, together with the state it left. *)

Definition M (S A : Type) : Type := S -> (Exn + A) * S.

Definition ret {S A : Type} (a : A) : M S A := fun s => (inr a, s).

Definition raise {S A : Type} (e : Exn) : M S A := fun s => (inl e, s).

Definition bind {S A B : Type} (m : M S A) (k : A -> M S B) : M S B :=
  fun s =>
    match m s with
    | (inr a, s') => k a s'
    | (inl e, s') => (inl e, s')
    end.

(** [try: body / except <classes>, exc: handler exc] *)
Definition try_except {S A : Type}
    (body : M S A) (catches : Exn -> bool) (handler : Exn -> M S A) : M S A :=
  fun s =>
    match body s with
    | (inl e, s') => if catches e then handler e s' else (inl e, s')
    | (inr a, s') => (inr a, s')
    end.

(** A result that needs no state. *)
Definition lift_result {S A : Type} (r : Exn + A) : M S A := fun s => (r, s).

(** Python's [if cond: raise exc]. *)
Definition raise_if {S : Type} (cond : bool) (e : Exn) : M S unit :=
  if cond then raise e else ret tt.

Declare Scope py_scope.
Delimit Scope py_scope with py.
Notation "x <- m ;; k" := (bind m (fun x => k))
  (at level 61, m at next level, right associativity) : py_scope.
Notation "' pat <- m ;; k" := (bind m (fun x => match x with pat => k end))
  (at level 61, pat pattern, m at next level, right associativity) : py_scope.
Notation "m ;; k" := (bind m (fun _ => k))
  (at level 61, right associativity) : py_scope.
Local Open Scope py_scope.

(** ** stem.socket *)

Module Socket.

(** Modelled from the spec: [stem.socket.ControlMessage] is not part of the
    sources at hand.  A reply is the ordered sequence of the contents of its
    lines (status code and divider already removed); [str(message)] joins
    them with newlines. *)
Definition ControlMessage : Type := list string.

(** The line feed character as a string. *)
Definition newline : string := String "010"%char EmptyString.

(** Modelled from the spec: [str(message)]. *)
Definition str (m : ControlMessage) : string := Py.join newline m.

(** Modelled from the spec: [stem.socket.ControlLine], the mapped-line
    tokenizer, is not part of the sources at hand.  A line is a string that
    remembers which part of it has not been consumed yet; comparing it or
    formatting it uses the whole string, popping uses the remainder. *)
Record ControlLine : Type := mkLine {
  content : string;
  remainder : string
}.

(** Modelled from the spec: a fresh line, as iterating over a message
    yields it, has all of its text still to be consumed. *)
Definition line_of (value : string) : ControlLine := mkLine value value.

(** Modelled from the spec: [line.is_empty()], nothing is left to consume. *)
Definition is_empty (l : ControlLine) : bool :=
  String.eqb (remainder l) EmptyString.

(** Modelled from the spec: the scan of [stem.socket] for the quote that
    closes a quoted entry; with [escaped] a quote behind a backslash does not
    close it. *)
Fixpoint closing_quote (escaped : bool) (prev : ascii) (s : string)
  : option (string * string) :=
  match s with
  | EmptyString => None
  | String c s' =>
      if Ascii.eqb c Py.dquote && negb (escaped && Ascii.eqb prev Py.backslash)
      then Some (EmptyString, s')
      else match closing_quote escaped c s' with
           | Some (v, r) => Some (String c v, r)
           | None => None
           end
  end.

(** Modelled from the spec: a quoted entry at the head of [s], without its
    quotes, and what follows it. *)
Definition quoted_entry (escaped : bool) (s : string) : option (string * string) :=
  match s with
  | String c s' => if Ascii.eqb c Py.dquote then closing_quote escaped c s' else None
  | EmptyString => None
  end.

(** Modelled from the spec: the backslash escapes of the control protocol
    and what they stand for. *)
Definition escape_target (c : ascii) : option ascii :=
  if Ascii.eqb c Py.backslash then Some Py.backslash
  else if Ascii.eqb c Py.dquote then Some Py.dquote
  else if Ascii.eqb c "'"%char then Some "'"%char
  else if Ascii.eqb c "r"%char then Some "013"%char
  else if Ascii.eqb c "n"%char then Some "010"%char
  else if Ascii.eqb c "t"%char then Some "009"%char
  else None.

(** Modelled from the spec: resolving the backslash escapes of an entry. *)
Fixpoint unescape (s : string) : string :=
  match s with
  | EmptyString => EmptyString
  | String c t =>
      match t with
      | String d s' =>
          if Ascii.eqb c Py.backslash
          then match escape_target d with
               | Some r => String r (unescape s')
               | None => String c (unescape t)
               end
          else String c (unescape t)
      | EmptyString => s
      end
  end.

(** Modelled from the spec: the next entry of [s] and what follows it,
    blanks in front of the rest removed; with [quoted] the entry must be
    enclosed in double quotes, with [escaped] its escapes are resolved.
    Where nothing is left there is no entry to take, which is an
    IndexError. *)
Definition parse_entry (s : string) (quoted escaped : bool)
  : Exn + (string * string) :=
  if String.eqb s EmptyString
  then inl (IndexError "no remaining content to parse")
  else
  let split :=
    if quoted then
      match quoted_entry escaped s with
      | Some (v, r) => inr (v, r)
      | None => inl (ValueError ("the next entry isn't a quoted value: " ++ s))
      end
    else
      match Py.split_once " "%char s with
      | Some (v, r) => inr (v, r)
      | None => inr (s, EmptyString)
      end in
  match split with
  | inr (v, r) => inr (if escaped then unescape v else v, Py.lstrip r)
  | inl e => inl e
  end.

(** Modelled from the spec: [line.pop()] removes and returns the leading
    blank-delimited entry; there is none on a line that is used up. *)
Definition pop (l : ControlLine) : Exn + (string * ControlLine) :=
  if is_empty l then inl (IndexError "no remaining content to parse")
  else match parse_entry (remainder l) false false with
       | inr (entry, r) => inr (entry, mkLine (content l) r)
       | inl e => inl e
       end.

(** Modelled from the spec: the KEY of a pending KEY=VALUE mapping is the
    text in front of the first equals sign of the leading entry; it comes
    with what follows that sign. *)
Fixpoint key_split (s : string) : option (string * string) :=
  match s with
  | EmptyString => None
  | String c s' =>
      if Py.isspace c then None
      else if Ascii.eqb c "="%char then Some (EmptyString, s')
      else match key_split s' with
           | Some (k, r) => Some (String c k, r)
           | None => None
           end
  end.

(** Modelled from the spec: a mapping needs a key that is not empty. *)
Definition key_match (s : string) : option (string * string) :=
  match key_split s with
  | Some (EmptyString, _) => None
  | other => other
  end.

(** Modelled from the spec: [line.is_next_mapping(key, quoted, escaped)]
    tells whether a KEY=VALUE mapping is pending, with that key when one is
    given, and with a quoted value when [quoted]. *)
Definition is_next_mapping (key : string) (quoted escaped : bool)
    (l : ControlLine) : bool :=
  match key_match (remainder l) with
  | Some (k, r) =>
      if negb (String.eqb key EmptyString) && negb (String.eqb key k) then false
      else if quoted then
        match quoted_entry escaped r with
        | Some _ => true
        | None => false
        end
      else true
  | None => false
  end.

(** Modelled from the spec: [line.pop_mapping(quoted, escaped)] removes and
    returns the leading (key, value) pair; the value is the entry behind the
    equals sign, so a mapping with nothing behind that sign has no value to
    take. *)
Definition pop_mapping (quoted escaped : bool) (l : ControlLine)
  : Exn + ((string * string) * ControlLine) :=
  if is_empty l then inl (IndexError "no remaining content to parse")
  else match key_match (remainder l) with
       | None =>
           inl (ValueError ("the next entry isn't a KEY=VALUE mapping: "
                            ++ remainder l))
       | Some (k, r) =>
           match parse_entry r quoted escaped with
           | inr (v, r') => inr ((k, v), mkLine (content l) r')
           | inl e => inl e
           end
       end.

(** Modelled from the spec: [stem.socket.ControlSocket] is not part of the
    sources at hand.  The transport exposes connect, send, recv and close;
    connect, send and recv may fail with a transport-layer error, recv also
    with a protocol error when what arrives is malformed.  What the other
    side will do is scripted in [peer]: the outcome of the next connect, of
    each coming send and of each coming recv. *)
Inductive RecvOutcome : Type :=
| Reply (m : ControlMessage)
| Malformed (msg : string)
| Broken (msg : string).

Record Peer : Type := mkPeer {
  connect_fault : option string;
  send_faults : list (option string);
  replies : list RecvOutcome
}.

Record ControlSocket : Type := mkSocket {
  is_alive : bool;
  sent : list string;
  peer : Peer
}.

(** Modelled from the spec: [control_socket.connect()]. *)
Definition connect : M ControlSocket unit :=
  fun s =>
    match connect_fault (peer s) with
    | Some msg => (inl (SocketError msg), mkSocket false (sent s) (peer s))
    | None => (inr tt, mkSocket true (sent s) (peer s))
    end.

(** Modelled from the spec: [control_socket.close()], which cannot fail. *)
Definition close : M ControlSocket unit :=
  fun s => (inr tt, mkSocket false (sent s) (peer s)).

(** Modelled from the spec: [control_socket.send(message)]; a closed socket
    refuses it. *)
Definition send (message : string) : M ControlSocket unit :=
  fun s =>
    if negb (is_alive s) then (inl (SocketError "socket is closed"), s)
    else
      let p := peer s in
      match send_faults p with
      | Some msg :: rest =>
          (inl (SocketError msg),
           mkSocket (is_alive s) (sent s) (mkPeer (connect_fault p) rest (replies p)))
      | None :: rest =>
          (inr tt,
           mkSocket (is_alive s) (sent s ++ [message])
                    (mkPeer (connect_fault p) rest (replies p)))
      | [] =>
          (inr tt, mkSocket (is_alive s) (sent s ++ [message]) p)
      end.

(** Modelled from the spec: [control_socket.recv()]; a closed socket
    refuses it. *)
Definition recv : M ControlSocket ControlMessage :=
  fun s =>
    if negb (is_alive s) then (inl (SocketError "socket is closed"), s)
    else
      let p := peer s in
      match replies p with
      | Reply m :: rest =>
          (inr m, mkSocket (is_alive s) (sent s)
                           (mkPeer (connect_fault p) (send_faults p) rest))
      | Malformed msg :: rest =>
          (inl (ProtocolError msg),
           mkSocket (is_alive s) (sent s)
                    (mkPeer (connect_fault p) (send_faults p) rest))
      | Broken msg :: rest =>
          (inl (SocketError msg),
           mkSocket (is_alive s) (sent s)
                    (mkPeer (connect_fault p) (send_faults p) rest))
      | [] => (inl (SocketError "no reply from the socket"), s)
      end.

End Socket.

(** ** The world outside the module *)

Inductive LogLevel : Type := DEBUG | INFO | WARN.

(** A pid resolver of [stem.util.system] together with the argument it is
    called with: the pair (pid_resolver, pid_resolution_arg) that
    [_expand_cookie_path] receives. *)
Inductive PidQuery : Type :=
| get_pid_by_name (name : string)
| get_pid_by_port (port : Z)
| get_pid_by_open_file (path : string).

(** What a run does to the world besides talking on the socket, in the
    order it happened. *)
Inductive Event : Type :=
| Logged (level : LogLevel) (msg : string)
| PathExists (path : string)
| GetSize (path : string)
| FileRead (path : string)
| PidLookup (query : PidQuery)
| CwdLookup (pid : Z).

(** A file: the size [os.path.getsize] reports and what reading it gives
    ([None] when opening or reading raises IOError). *)
Record File : Type := mkFile {
  st_size : Z;
  data : option string
}.

(** The collaborators that are not part of the sources at hand, taken as
    parameters: the file system, the process table lookups and path helpers
    of [stem.util.system], the constructor of [stem.version.Version]
    ([inl msg] stands for ValueError), and what answers at each control port
    and control socket file. *)
Record Env (TorVersion : Type) : Type := mkEnv {
  fs : string -> option File;
  pid_resolver : PidQuery -> option Z;
  get_cwd : Z -> option string;
  is_relative_path : string -> bool;
  expand_path : string -> string -> string;
  Version : string -> string + TorVersion;
  port_peer : string -> Z -> Socket.Peer;
  file_peer : string -> Socket.Peer
}.

Arguments fs {TorVersion}.
Arguments pid_resolver {TorVersion}.
Arguments get_cwd {TorVersion}.
Arguments is_relative_path {TorVersion}.
Arguments expand_path {TorVersion}.
Arguments Version {TorVersion}.
Arguments port_peer {TorVersion}.
Arguments file_peer {TorVersion}.

(** ** stem.connection: data *)

Inductive AuthMethod : Type := NONE | PASSWORD | COOKIE | UNKNOWN.

Definition AuthMethod_eqb (a b : AuthMethod) : bool :=
  match a, b with
  | NONE, NONE | PASSWORD, PASSWORD | COOKIE, COOKIE | UNKNOWN, UNKNOWN => true
  | _, _ => false
  end.

(** The attributes of a [ProtocolInfoResponse].  While [_parse_message]
    runs, [auth_methods] and [unknown_auth_methods] hold its two local
    lists, which become the attributes of the same name when it ends. *)
Record ProtocolInfoResponse (TorVersion : Type) : Type := mkResponse {
  protocol_version : option Z;
  tor_version : option TorVersion;
  cookie_path : option string;
  auth_methods : list AuthMethod;
  unknown_auth_methods : list string
}.

Arguments mkResponse {TorVersion}.
Arguments protocol_version {TorVersion}.
Arguments tor_version {TorVersion}.
Arguments cookie_path {TorVersion}.
Arguments auth_methods {TorVersion}.
Arguments unknown_auth_methods {TorVersion}.

(** The socket a function works on and the trace of everything else. *)
Record World : Type := mkWorld {
  control_socket : Socket.ControlSocket;
  trace : list Event
}.

Definition on_socket {A : Type} (m : M Socket.ControlSocket A) : M World A :=
  fun w =>
    let (r, s) := m (control_socket w) in (r, mkWorld s (trace w)).

Definition on_trace {A : Type} (m : M (list Event) A) : M World A :=
  fun w =>
    let (r, t) := m (trace w) in (r, mkWorld (control_socket w) t).

Definition emit (e : Event) : M (list Event) unit :=
  fun t => (inr tt, (t ++ [e])%list).

Definition LOGGER (level : LogLevel) (msg : string) : M (list Event) unit :=
  emit (Logged level msg).

Definition AUTH_COOKIE_MISSING (path : string) : string :=
  "Authentication failed: '" ++ path ++ "' doesn't exist".

Definition AUTH_COOKIE_WRONG_SIZE (path : string) (size : Z) : string :=
  "Authentication failed: authentication cookie '" ++ path
  ++ "' is the wrong size (" ++ Py.fmt_i size ++ " bytes instead of 32)".

(** ** stem.connection: functions *)

Section Connection.

Context {TorVersion : Type} (env : Env TorVersion).

Local Abbreviation Response := (ProtocolInfoResponse TorVersion).

(** [os.path.exists(path)] *)
Definition os_path_exists (path : string) : M (list Event) bool :=
  emit (PathExists path) ;;
  ret (match fs env path with Some _ => true | None => false end).

(** [os.path.getsize(path)] *)
Definition os_path_getsize (path : string) : M (list Event) Z :=
  emit (GetSize path) ;;
  match fs env path with
  | Some f => ret (st_size f)
  | None => raise (OSError ("No such file or directory: '" ++ path ++ "'"))
  end.

(** [f = open(path, "r"); contents = f.read(); f.close()] *)
Definition read_file (path : string) : M (list Event) string :=
  emit (FileRead path) ;;
  match fs env path with
  | Some f =>
      match data f with
      | Some contents => ret contents
      | None => raise (IOError ("Permission denied: '" ++ path ++ "'"))
      end
  | None => raise (IOError ("No such file or directory: '" ++ path ++ "'"))
  end.

Definition authenticate_none : M World unit :=
  on_socket (Socket.send "AUTHENTICATE") ;;
  auth_response <- on_socket Socket.recv ;;
  raise_if (negb (Socket.str auth_response =? "OK")%string)
           (ValueError (Socket.str auth_response)).

Definition authenticate_password (password : string) : M World unit :=
  let password := Py.escape_quotes password in
  on_socket (Socket.send ("AUTHENTICATE " ++ String Py.dquote password
                          ++ String Py.dquote EmptyString)) ;;
  auth_response <- on_socket Socket.recv ;;
  raise_if (negb (Socket.str auth_response =? "OK")%string)
           (ValueError (Socket.str auth_response)).

Definition authenticate_cookie (cookie_path : string) : M World unit :=
  found <- on_trace (os_path_exists cookie_path) ;;
  raise_if (negb found) (OSError (AUTH_COOKIE_MISSING cookie_path)) ;;
  auth_cookie_size <- on_trace (os_path_getsize cookie_path) ;;
  raise_if (negb (auth_cookie_size =? 32))
           (ValueError (AUTH_COOKIE_WRONG_SIZE cookie_path auth_cookie_size)) ;;
  try_except
    (auth_cookie_contents <- on_trace (read_file cookie_path) ;;
     on_socket (Socket.send ("AUTHENTICATE " ++ Py.b2a_hex auth_cookie_contents)) ;;
     auth_response <- on_socket Socket.recv ;;
     raise_if (negb (Socket.str auth_response =? "OK")%string)
              (ValueError (Socket.str auth_response)))
    is_IOError
    (fun exc => raise (OSError (str_exn exc))).

(** Truth value of an optional string and of an optional integer. *)
Definition truthy_str (v : option string) : bool :=
  match v with
  | Some s => negb (s =? EmptyString)%string
  | None => false
  end.

Definition truthy_int (v : option Z) : bool :=
  match v with
  | Some n => negb (n =? 0)
  | None => false
  end.

Definition resolver_labels (q : PidQuery) : string :=
  match q with
  | get_pid_by_name _ => " by name"
  | get_pid_by_port _ => " by port"
  | get_pid_by_open_file _ => " by socket file"
  end.

Definition set_cookie_path (r : Response) (p : option string) : Response :=
  mkResponse (protocol_version r) (tor_version r) p
             (auth_methods r) (unknown_auth_methods r).

(** The two lookups and the join, inside the [try] block. *)
Definition resolve_cookie_path (path : string) (q : PidQuery)
  : M (list Event) (option string) :=
  emit (PidLookup q) ;;
  let tor_pid := pid_resolver env q in
  raise_if (negb (truthy_int tor_pid)) (IOError "pid lookup failed") ;;
  let pid := match tor_pid with Some n => n | None => 0 end in
  emit (CwdLookup pid) ;;
  let tor_cwd := get_cwd env pid in
  raise_if (negb (truthy_str tor_cwd)) (IOError "cwd lookup failed") ;;
  let cwd := match tor_cwd with Some d => d | None => EmptyString end in
  ret (Some (expand_path env path cwd)).

Definition _expand_cookie_path (protocolinfo_response : Response) (q : PidQuery)
  : M (list Event) Response :=
  let cookie_path := cookie_path protocolinfo_response in
  cookie_path <-
    match cookie_path with
    | Some path =>
        if truthy_str cookie_path && is_relative_path env path then
          try_except
            (resolve_cookie_path path q)
            is_IOError
            (fun exc =>
               let pid_resolver_label := resolver_labels q in
               LOGGER DEBUG ("unable to expand relative tor cookie path"
                             ++ pid_resolver_label ++ ": " ++ str_exn exc) ;;
               ret cookie_path)
        else ret cookie_path
    | None => ret cookie_path
    end ;;
  ret (set_cookie_path protocolinfo_response cookie_path).

Definition set_protocol_version (r : Response) (v : option Z) : Response :=
  mkResponse v (tor_version r) (cookie_path r)
             (auth_methods r) (unknown_auth_methods r).

Definition set_tor_version (r : Response) (v : option TorVersion) : Response :=
  mkResponse (protocol_version r) v (cookie_path r)
             (auth_methods r) (unknown_auth_methods r).

Definition set_methods (r : Response) (a : list AuthMethod) (u : list string)
  : Response :=
  mkResponse (protocol_version r) (tor_version r) (cookie_path r) a u.

(** One turn of [for method in ....split(",")]. *)
Definition parse_method (lists : list AuthMethod * list string) (method : string)
  : M (list Event) (list AuthMethod * list string) :=
  let (auth_methods, unknown_auth_methods) := lists in
  if (method =? "NULL")%string then
    ret ((auth_methods ++ [NONE])%list, unknown_auth_methods)
  else if (method =? "HASHEDPASSWORD")%string then
    ret ((auth_methods ++ [PASSWORD])%list, unknown_auth_methods)
  else if (method =? "COOKIE")%string then
    ret ((auth_methods ++ [COOKIE])%list, unknown_auth_methods)
  else
    let unknown_auth_methods := (unknown_auth_methods ++ [method])%list in
    LOGGER INFO ("PROTOCOLINFO response had an unrecognized authentication method: "
                 ++ method) ;;
    if negb (existsb (AuthMethod_eqb UNKNOWN) auth_methods)
    then ret ((auth_methods ++ [UNKNOWN])%list, unknown_auth_methods)
    else ret (auth_methods, unknown_auth_methods).

Fixpoint parse_methods (methods : list string)
    (lists : list AuthMethod * list string)
  : M (list Event) (list AuthMethod * list string) :=
  match methods with
  | [] => ret lists
  | method :: rest =>
      lists <- parse_method lists method ;;
      parse_methods rest lists
  end.

Definition parse_PROTOCOLINFO (self : Response) (line : Socket.ControlLine)
  : M (list Event) Response :=
  raise_if (Socket.is_empty line)
    (ProtocolError ("PROTOCOLINFO response's initial line is missing the protocol version: "
                    ++ Socket.content line)) ;;
  ' (piversion, line) <- lift_result (Socket.pop line) ;;
  raise_if (negb (Py.isdigit piversion))
    (ProtocolError ("PROTOCOLINFO response version is non-numeric: "
                    ++ Socket.content line)) ;;
  let self := set_protocol_version self (Some (Py.int piversion)) in
  (if negb (Py.int piversion =? 1) then
     LOGGER WARN ("We made a PROTOCOLINFO v1 query but got a version "
                  ++ Py.fmt_i (Py.int piversion)
                  ++ " response instead. We'll still try to use it, but this may cause problems.")
   else ret tt) ;;
  ret self.

Definition parse_AUTH (self : Response) (line : Socket.ControlLine)
  : M (list Event) Response :=
  raise_if (negb (Socket.is_next_mapping "METHODS" false false line))
    (ProtocolError ("PROTOCOLINFO response's AUTH line is missing its mandatory 'METHODS' mapping: "
                    ++ Socket.content line)) ;;
  ' (mapping, line) <- lift_result (Socket.pop_mapping false false line) ;;
  ' (auth_methods, unknown_auth_methods) <-
      parse_methods (Py.split ","%char (snd mapping))
                    (auth_methods self, unknown_auth_methods self) ;;
  let self := set_methods self auth_methods unknown_auth_methods in
  if Socket.is_next_mapping "COOKIEFILE" true true line then
    ' (mapping, line) <- lift_result (Socket.pop_mapping true true line) ;;
    let self := set_cookie_path self (Some (snd mapping)) in
    _expand_cookie_path self (get_pid_by_name "tor")
  else ret self.

Definition parse_VERSION (self : Response) (line : Socket.ControlLine)
  : M (list Event) Response :=
  raise_if (negb (Socket.is_next_mapping "Tor" true false line))
    (ProtocolError ("PROTOCOLINFO response's VERSION line is missing its mandatory tor version mapping: "
                    ++ Socket.content line)) ;;
  ' (mapping, line) <- lift_result (Socket.pop_mapping true false line) ;;
  let torversion := snd mapping in
  match Version env torversion with
  | inr v => ret (set_tor_version self (Some v))
  | inl msg => raise (ProtocolError msg)
  end.

(** The body of [for line in self] below its two early exits. *)
Definition parse_line (self : Response) (line : Socket.ControlLine)
  : M (list Event) Response :=
  ' (line_type, line) <- lift_result (Socket.pop line) ;;
  if (line_type =? "PROTOCOLINFO")%string then parse_PROTOCOLINFO self line
  else if (line_type =? "AUTH")%string then parse_AUTH self line
  else if (line_type =? "VERSION")%string then parse_VERSION self line
  else
    LOGGER DEBUG ("unrecognized PROTOCOLINFO line type '" ++ line_type
                  ++ "', ignoring entry: " ++ Socket.content line) ;;
    ret self.

Fixpoint parse_lines (lines : list string) (self : Response)
  : M (list Event) Response :=
  match lines with
  | [] => ret self
  | value :: rest =>
      let line := Socket.line_of value in
      if (Socket.content line =? "OK")%string then ret self
      else if Socket.is_empty line then parse_lines rest self
      else
        self <- parse_line self line ;;
        parse_lines rest self
  end.

Definition _parse_message (self : Socket.ControlMessage) : M (list Event) Response :=
  let response := mkResponse None None None [] [] in
  match self with
  | [] => raise (IndexError "list index out of range")
  | first :: _ =>
      raise_if (negb (Py.startswith first "PROTOCOLINFO"))
               (ProtocolError "Message is not a PROTOCOLINFO response") ;;
      parse_lines self response
  end.

(** [ProtocolInfoResponse.convert]: what the socket hands out is always a
    ControlMessage, so the TypeError branch is never taken. *)
Definition convert (control_message : Socket.ControlMessage)
  : M (list Event) Response :=
  _parse_message control_message.

Definition ControlPort (control_addr : string) (control_port : Z)
  : Socket.ControlSocket :=
  Socket.mkSocket false [] (port_peer env control_addr control_port).

Definition ControlSocketFile (socket_path : string) : Socket.ControlSocket :=
  Socket.mkSocket false [] (file_peer env socket_path).

Definition current_socket : M World Socket.ControlSocket :=
  fun w => (inr (control_socket w), w).

(** What a discovery call returns: the response alone, or the response with
    the socket that is still open. *)
Definition finish (protocolinfo_response : Response) (get_socket : bool)
  : M World (Response * option Socket.ControlSocket) :=
  if get_socket then
    s <- current_socket ;;
    ret (protocolinfo_response, Some s)
  else
    on_socket Socket.close ;;
    ret (protocolinfo_response, None).

Definition get_protocolinfo_by_port (control_addr : string) (control_port : Z)
    (get_socket : bool) (events : list Event)
  : (Exn + (Response * option Socket.ControlSocket)) * World :=
  try_except
    (on_socket Socket.connect ;;
     on_socket (Socket.send "PROTOCOLINFO 1") ;;
     protocolinfo_response <- on_socket Socket.recv ;;
     protocolinfo_response <- on_trace (convert protocolinfo_response) ;;
     protocolinfo_response <-
       (if (control_addr =? "127.0.0.1")%string
        then on_trace (_expand_cookie_path protocolinfo_response
                                           (get_pid_by_port control_port))
        else ret protocolinfo_response) ;;
     finish protocolinfo_response get_socket)
    is_ControllerError
    (fun exc => on_socket Socket.close ;; raise exc)
    (mkWorld (ControlPort control_addr control_port) events).

Definition get_protocolinfo_by_socket (socket_path : string)
    (get_socket : bool) (events : list Event)
  : (Exn + (Response * option Socket.ControlSocket)) * World :=
  try_except
    (on_socket Socket.connect ;;
     on_socket (Socket.send "PROTOCOLINFO 1") ;;
     protocolinfo_response <- on_socket Socket.recv ;;
     protocolinfo_response <- on_trace (convert protocolinfo_response) ;;
     protocolinfo_response <-
       on_trace (_expand_cookie_path protocolinfo_response
                                     (get_pid_by_open_file socket_path)) ;;
     finish protocolinfo_response get_socket)
    is_ControllerError
    (fun exc => on_socket Socket.close ;; raise exc)
    (mkWorld (ControlSocketFile socket_path) events).

End Connection.

(** ** A concrete world

    A tor daemon with pid 4242 runs in /var/lib/tor and listens on control
    port 9051; its 32 byte cookie sits next to a 16 byte file that is not a
    cookie.  Nothing answers anywhere else. *)

Module Sample.

Definition quoted (s : string) : string :=
  String Py.dquote s ++ String Py.dquote EmptyString.

Definition cookie : string := "0123456789abcdef0123456789abcdef".

Definition reply : Socket.ControlMessage :=
  [ "PROTOCOLINFO 1";
    "AUTH METHODS=COOKIE COOKIEFILE=" ++ quoted "control_auth_cookie";
    "VERSION Tor=" ++ quoted "0.2.1.30";
    "OK" ].

Definition files (path : string) : option File :=
  if (path =? "/var/lib/tor/control_auth_cookie")%string
  then Some (mkFile 32 (Some cookie))
  else if (path =? "/home/atagar/.bash_history")%string
  then Some (mkFile 16 (Some "ls -l /var/lib/t"))
  else None.

Definition pids (q : PidQuery) : option Z :=
  match q with
  | get_pid_by_port 9051 => Some 4242
  | _ => None
  end.

Definition cwds (pid : Z) : option string :=
  if pid =? 4242 then Some "/var/lib/tor" else None.

Definition listening : Socket.Peer :=
  Socket.mkPeer None [] [Socket.Reply reply].

Definition refusing : Socket.Peer :=
  Socket.mkPeer (Some "Connection refused") [] [].

Definition env : Env string :=
  mkEnv string files pids cwds
    (fun path => negb (Py.startswith path "/"))
    (fun path cwd => cwd ++ "/" ++ path)
    (fun v => if (v =? EmptyString)%string
              then inl "'' isn't a properly formatted tor version"
              else inr v)
    (fun addr port => if port =? 9051 then listening else refusing)
    (fun path => refusing).

(** An open socket on which the daemon will answer [m] to the next command. *)
Definition answering (m : Socket.ControlMessage) : World :=
  mkWorld (Socket.mkSocket true [] (Socket.mkPeer None [] [Socket.Reply m])) [].

End Sample.

(** A second world: the same daemon also listens on the socket file
    /var/run/tor/control and answers a second command with OK; what listens
    on port 9052 lists no method behind METHODS= in its AUTH line, what
    listens on port 9053 leaves the METHODS mapping out; and there is a
    cookie of 32 bytes that this user may not read. *)

Module Daemon.

Definition talking : Socket.Peer :=
  Socket.mkPeer None [] [Socket.Reply Sample.reply; Socket.Reply ["OK"]].

Definition no_methods : Socket.Peer :=
  Socket.mkPeer None [] [Socket.Reply ["PROTOCOLINFO 1"; "AUTH METHODS="; "OK"]].

Definition no_mapping : Socket.Peer :=
  Socket.mkPeer None []
    [Socket.Reply ["PROTOCOLINFO 1"; "AUTH COOKIEFILE=/var/lib/tor/cookie"; "OK"]].

Definition pids (q : PidQuery) : option Z :=
  match q with
  | get_pid_by_port 9051 => Some 4242
  | get_pid_by_open_file path =>
      if (path =? "/var/run/tor/control")%string then Some 4242 else None
  | _ => None
  end.

Definition files (path : string) : option File :=
  if (path =? "/root/.tor/control_auth_cookie")%string
  then Some (mkFile 32 None)
  else Sample.files path.

Definition env : Env string :=
  mkEnv string files pids Sample.cwds
    (fun path => negb (Py.startswith path "/"))
    (fun path cwd => cwd ++ "/" ++ path)
    (fun v => if (v =? EmptyString)%string
              then inl "'' isn't a properly formatted tor version"
              else inr v)
    (fun addr port =>
       if port =? 9051 then talking
       else if port =? 9052 then no_methods
       else if port =? 9053 then no_mapping
       else Sample.refusing)
    (fun path =>
       if (path =? "/var/run/tor/control")%string then talking
       else Sample.refusing).

End Daemon.

(** ** Specification vocabulary *)

(** The socket is connected, the next command goes through and the daemon
    answers it with [m]. *)
Definition answers_next (s : Socket.ControlSocket) (m : Socket.ControlMessage)
  : Prop :=
  Socket.is_alive s = true
  /\ hd None (Socket.send_faults (Socket.peer s)) = None
  /\ hd_error (Socket.replies (Socket.peer s)) = Some (Socket.Reply m).

(** The method table of the control protocol as the specification words it:
    NULL is NONE, HASHEDPASSWORD is PASSWORD, COOKIE is COOKIE. *)
Definition spec_method_of (name : string) : option AuthMethod :=
  if (name =? "NULL")%string then Some NONE
  else if (name =? "HASHEDPASSWORD")%string then Some PASSWORD
  else if (name =? "COOKIE")%string then Some COOKIE
  else None.

Definition spec_recognized (name : string) : bool :=
  match spec_method_of name with Some _ => true | None => false end.

Fixpoint spec_known_methods (names : list string) : list AuthMethod :=
  match names with
  | [] => []
  | name :: rest =>
      match spec_method_of name with
      | Some m => m :: spec_known_methods rest
      | None => spec_known_methods rest
      end
  end.

Definition is_UNKNOWN (m : AuthMethod) : bool := AuthMethod_eqb UNKNOWN m.

Definition count_UNKNOWN (l : list AuthMethod) : nat :=
  List.length (filter is_UNKNOWN l).

(** Two responses that differ at most in their protocol version. *)
Definition same_but_version {V : Type} (a b : ProtocolInfoResponse V) : Prop :=
  tor_version a = tor_version b
  /\ cookie_path a = cookie_path b
  /\ auth_methods a = auth_methods b
  /\ unknown_auth_methods a = unknown_auth_methods b.

(** The socket as [send] leaves it. *)
Definition after_send (s : Socket.ControlSocket) (command : string)
  : Socket.ControlSocket :=
  snd (Socket.send command s).

(** The verdict of a handshake on the daemon's answer. *)
Definition verdict (m : Socket.ControlMessage) : Exn + unit :=
  if (Socket.str m =? "OK")%string then inr tt
  else inl (ValueError (Socket.str m)).

(** One round trip as all three handshakes perform it: the command is sent,
    the answer is read and judged. *)
Definition round_trip_of (command : string) : M World unit :=
  on_socket (Socket.send command) ;;
  auth_response <- on_socket Socket.recv ;;
  raise_if (negb (Socket.str auth_response =? "OK")%string)
           (ValueError (Socket.str auth_response)).

(** A computation on the trace whose result does not depend on the events
    already recorded and which only appends events satisfying [P]. *)
Definition traced {A : Type} (P : Event -> Prop) (m : M (list Event) A) : Prop :=
  exists r evs, (forall t, m t = (r, (t ++ evs)%list)) /\ Forall P evs.

(** The events parsing a reply can cause: log records and the lookups of
    the process named tor. *)
Definition parse_event (e : Event) : Prop :=
  match e with
  | Logged _ _ => True
  | PidLookup (get_pid_by_name _) => True
  | CwdLookup _ => True
  | _ => False
  end.

(** The debug record the resolver leaves when a lookup gave nothing. *)
Definition unable (q : PidQuery) (why : string) : Event :=
  Logged DEBUG ("unable to expand relative tor cookie path"
                ++ resolver_labels q ++ ": " ++ why).

Definition is_known (m : AuthMethod) : bool := negb (is_UNKNOWN m).

Definition spec_unrecognized (name : string) : bool := negb (spec_recognized name).

(** The outcome of a run with the protocol version of the response it
    returns replaced by [v]. *)
Definition with_version {V : Type} (v : option Z)
    (out : (Exn + ProtocolInfoResponse V) * list Event)
  : (Exn + ProtocolInfoResponse V) * list Event :=
  match out with
  | (inr r, t) =>
      (inr (mkResponse v (tor_version r) (cookie_path r)
                       (auth_methods r) (unknown_auth_methods r)), t)
  | (inl e, t) => (inl e, t)
  end.

(** Two results of the parser that are the same error, or two responses
    that differ at most in their protocol version. *)
Definition same_outcome {V : Type} (a b : Exn + ProtocolInfoResponse V) : Prop :=
  match a, b with
  | inl e1, inl e2 => e1 = e2
  | inr r1, inr r2 => same_but_version r1 r2
  | _, _ => False
  end.

Definition same_result {V : Type}
    (a b : (Exn + ProtocolInfoResponse V) * list Event) : Prop :=
  same_outcome (fst a) (fst b) /\ snd a = snd b.

(** The warning logged for a reply of protocol version [v]. *)
Definition version_warning (v : Z) : Event :=
  Logged WARN ("We made a PROTOCOLINFO v1 query but got a version "
               ++ Py.fmt_i v
               ++ " response instead. We'll still try to use it, but this may cause problems.").

(** The response [_parse_message] starts from. *)
Definition blank {V : Type} : ProtocolInfoResponse V :=
  mkResponse None None None [] [].

(** The protocol version has been set, to a number from zero up. *)
Definition settled {V : Type} (r : ProtocolInfoResponse V) : Prop :=
  exists v, protocol_version r = Some v /\ 0 <= v.

(** An event that is not a pid lookup by control port. *)
Definition not_port_lookup (e : Event) : Prop :=
  forall port, e <> PidLookup (get_pid_by_port port).

(** The socket as [close] leaves it. *)
Definition closed (s : Socket.ControlSocket) : Socket.ControlSocket :=
  snd (Socket.close s).

(** Every double quote of [s] comes directly behind a backslash;
    [behind] tells whether the character in front of [s] is one. *)
Fixpoint quotes_follow_backslash (behind : bool) (s : string) : bool :=
  match s with
  | EmptyString => true
  | String c s' =>
      if Ascii.eqb c Py.dquote
      then behind && quotes_follow_backslash false s'
      else quotes_follow_backslash (Ascii.eqb c Py.backslash) s'
  end.

(** Dropping the backslash in front of each double quote. *)
Fixpoint drop_quote_escapes (s : string) : string :=
  match s with
  | EmptyString => EmptyString
  | String c t =>
      match t with
      | String d s' =>
          if Ascii.eqb c Py.backslash && Ascii.eqb d Py.dquote
          then String d (drop_quote_escapes s')
          else String c (drop_quote_escapes t)
      | EmptyString => s
      end
  end.

(** A decimal digit or a letter from a to f. *)
Definition is_lower_hex (c : ascii) : bool :=
  let n := N_of_ascii c in
  ((48 <=? n)%N && (n <=? 57)%N) || ((97 <=? n)%N && (n <=? 102)%N).

Fixpoint all_lower_hex (s : string) : bool :=
  match s with
  | EmptyString => true
  | String c s' => is_lower_hex c && all_lower_hex s'
  end.

(** The value of a hexadecimal digit as [Py.hex_digit] writes it. *)
Definition hex_value (c : ascii) : N :=
  let n := N_of_ascii c in
  if (n <? 58)%N then (n - 48)%N else (n - 87)%N.

(** [binascii.a2b_hex] on what [Py.b2a_hex] wrote: two digits per byte. *)
Fixpoint a2b_hex (s : string) : string :=
  match s with
  | String hi (String lo s') =>
      String (ascii_of_N (16 * hex_value hi + hex_value lo)) (a2b_hex s')
  | _ => EmptyString
  end.

(** The events the parser causes, exactly: log records, the lookup of the
    process named tor and lookups of a working directory. *)
Definition tor_lookup_event (e : Event) : Prop :=
  match e with
  | Logged _ _ => True
  | PidLookup (get_pid_by_name name) => name = "tor"
  | CwdLookup _ => True
  | _ => False
  end.

(** The methods and the unknown names of a response belong together:
    UNKNOWN is among the methods exactly when there is an unknown name, and
    no unknown name is one the protocol defines. *)
Definition methods_consistent {V : Type} (r : ProtocolInfoResponse V) : Prop :=
  (In UNKNOWN (auth_methods r) <-> unknown_auth_methods r <> [])
  /\ Forall (fun n => spec_unrecognized n = true) (unknown_auth_methods r).

(** What the two discovery calls have in common, step by step: connect,
    send the query, read the reply, parse it, run the resolution step
    [resolve] of the call, then hand the socket over or close it; a
    controller error on the way closes the socket. *)
Definition discovery_outcome {V : Type} (env : Env V)
    (s0 : Socket.ControlSocket)
    (resolve : ProtocolInfoResponse V -> M (list Event) (ProtocolInfoResponse V))
    (get_socket : bool) (events : list Event)
  : (Exn + (ProtocolInfoResponse V * option Socket.ControlSocket)) * World :=
  match Socket.connect s0 with
  | (inl e, s1) => (inl e, mkWorld (closed s1) events)
  | (inr _, s1) =>
  match Socket.send "PROTOCOLINFO 1" s1 with
  | (inl e, s2) => (inl e, mkWorld (closed s2) events)
  | (inr _, s2) =>
  match Socket.recv s2 with
  | (inl e, s3) => (inl e, mkWorld (closed s3) events)
  | (inr m, s3) =>
  match convert env m events with
  | (inl e, t0) =>
      (inl e, mkWorld (if is_ControllerError e then closed s3 else s3) t0)
  | (inr r0, t0) =>
  match resolve r0 t0 with
  | (inl e, t1) =>
      (inl e, mkWorld (if is_ControllerError e then closed s3 else s3) t1)
  | (inr r, t1) =>
      if get_socket then (inr (r, Some s3), mkWorld s3 t1)
      else (inr (r, None), mkWorld (closed s3) t1)
  end end end end end.

(** The resolution step of [get_protocolinfo_by_port]. *)
Definition resolve_by_port {V : Type} (env : Env V)
    (control_addr : string) (control_port : Z) (r : ProtocolInfoResponse V)
  : M (list Event) (ProtocolInfoResponse V) :=
  if (control_addr =? "127.0.0.1")%string
  then _expand_cookie_path env r (get_pid_by_port control_port)
  else ret r.

(** The resolution step of [get_protocolinfo_by_socket]. *)
Definition resolve_by_socket {V : Type} (env : Env V)
    (socket_path : string) (r : ProtocolInfoResponse V)
  : M (list Event) (ProtocolInfoResponse V) :=
  _expand_cookie_path env r (get_pid_by_open_file socket_path).

(** An event that is not an access to the file system. *)
Definition no_file_access (e : Event) : Prop :=
  match e with
  | PathExists _ | GetSize _ | FileRead _ => False
  | _ => True
  end.

(** An AUTH line that names the METHODS mapping and has nothing behind its
    equals sign. *)
Definition lists_no_method (value : string) : Prop :=
  exists l1, Socket.pop (Socket.line_of value) = inr ("AUTH", l1)
             /\ Socket.remainder l1 = "METHODS=".

(** The IndexErrors of the parser and the replies they come from: taking the
    first line of a reply that has none, and taking the value of a METHODS
    mapping that has none. *)
Definition parser_IndexError (m : Socket.ControlMessage) (e : Exn) : Prop :=
  (m = [] /\ e = IndexError "list index out of range")
  \/ (e = IndexError "no remaining content to parse"
      /\ exists value, In value m /\ lists_no_method value).

(** * Properties *)

(** ** Running the monad *)

Lemma bind_inr {S A B : Type} (m : M S A) (k : A -> M S B) s a s' :
  m s = (inr a, s') -> bind m k s = k a s'.
Proof. unfold bind. now intros ->. Qed.

Lemma bind_inl {S A B : Type} (m : M S A) (k : A -> M S B) s e s' :
  m s = (inl e, s') -> bind m k s = (inl e, s').
Proof. unfold bind. now intros ->. Qed.

Lemma try_except_inr {S A : Type} (m : M S A) c h s a s' :
  m s = (inr a, s') -> try_except m c h s = (inr a, s').
Proof. unfold try_except. now intros ->. Qed.

Lemma try_except_inl {S A : Type} (m : M S A) c h s e s' :
  m s = (inl e, s') ->
  try_except m c h s = if c e then h e s' else (inl e, s').
Proof. unfold try_except. now intros ->. Qed.

Lemma raise_if_false {S : Type} (e : Exn) (s : S) :
  raise_if false e s = (inr tt, s).
Proof. reflexivity. Qed.

Lemma raise_if_true {S : Type} (e : Exn) (s : S) :
  raise_if true e s = (inl e, s).
Proof. reflexivity. Qed.

(** ** The socket *)

Section SocketFacts.

Variables (s : Socket.ControlSocket) (m : Socket.ControlMessage).
Hypothesis Hnext : answers_next s m.

Lemma send_goes_through command :
  Socket.send command s = (inr tt, after_send s command)
  /\ Socket.sent (after_send s command) = (Socket.sent s ++ [command])%list
  /\ Socket.is_alive (after_send s command) = true.
Proof.
  destruct Hnext as (Ha & Hs & _). unfold after_send, Socket.send.
  rewrite Ha. cbn [negb].
  destruct (Socket.send_faults (Socket.peer s)) as [|[msg|] rest];
    cbn in Hs |- *; try discriminate; auto.
Qed.

Lemma recv_after_send command :
  exists s', Socket.recv (after_send s command) = (inr m, s')
             /\ Socket.sent s' = (Socket.sent s ++ [command])%list
             /\ Socket.is_alive s' = true.
Proof.
  destruct Hnext as (Ha & Hs & Hr). unfold after_send, Socket.send, Socket.recv.
  rewrite Ha. cbn [negb].
  destruct (Socket.replies (Socket.peer s)) as [|[m'|msg|msg] rest] eqn:Er;
    cbn in Hr; try discriminate.
  injection Hr as ->.
  destruct (Socket.send_faults (Socket.peer s)) as [|[msg|] rest'];
    cbn in Hs |- *; try discriminate; rewrite ?Ha, ?Er; cbn; eauto.
Qed.

End SocketFacts.


Lemma try_except_transparent {S A : Type} (m : M S A) c h s :
  (forall e s', m s = (inl e, s') -> c e = false) ->
  try_except m c h s = m s.
Proof.
  intros H. unfold try_except.
  destruct (m s) as [[e|a] s'] eqn:E; [|reflexivity].
  now rewrite (H e s' eq_refl).
Qed.

Lemma round_trip (w : World) (m : Socket.ControlMessage) (command : string) :
  answers_next (control_socket w) m ->
  exists s',
    round_trip_of command w = (verdict m, mkWorld s' (trace w))
    /\ Socket.sent s' = (Socket.sent (control_socket w) ++ [command])%list.
Proof.
  intros Hn. unfold round_trip_of.
  destruct (send_goes_through _ _ Hn command) as (Hsend & _ & _).
  destruct (recv_after_send _ _ Hn command) as (s' & Hrecv & Hsent & _).
  exists s'. split; [|exact Hsent].
  unfold bind at 1. unfold on_socket at 1. rewrite Hsend. cbn [trace control_socket].
  unfold bind, on_socket. cbn [trace control_socket]. rewrite Hrecv.
  unfold verdict. cbn [trace control_socket].
  destruct (Socket.str m =? "OK")%string; reflexivity.
Qed.

Lemma send_raises command s e s' :
  Socket.send command s = (inl e, s') -> is_ControllerError e = true.
Proof.
  unfold Socket.send. destruct (Socket.is_alive s); cbn [negb].
  - destruct (Socket.send_faults (Socket.peer s)) as [|[msg|] rest];
      intros H; inversion H; reflexivity.
  - intros H; inversion H; reflexivity.
Qed.

Lemma recv_raises s e s' :
  Socket.recv s = (inl e, s') -> is_ControllerError e = true.
Proof.
  unfold Socket.recv. destruct (Socket.is_alive s); cbn [negb].
  - destruct (Socket.replies (Socket.peer s)) as [|[m|msg|msg] rest];
      intros H; inversion H; reflexivity.
  - intros H; inversion H; reflexivity.
Qed.

Lemma connect_raises s e s' :
  Socket.connect s = (inl e, s') -> is_ControllerError e = true.
Proof.
  unfold Socket.connect. destruct (Socket.connect_fault (Socket.peer s));
    intros H; inversion H; reflexivity.
Qed.

Lemma on_socket_trace {A : Type} (m : M Socket.ControlSocket A) (w : World) :
  trace (snd (on_socket m w)) = trace w.
Proof. unfold on_socket. now destruct (m (control_socket w)). Qed.

(** A round trip raises socket and protocol errors and ValueError only, and
    leaves the trace alone. *)
Lemma round_trip_raises (command : string) (w w' : World) (e : Exn) :
  round_trip_of command w = (inl e, w') -> is_IOError e = false.
Proof.
  unfold round_trip_of, bind, on_socket.
  destruct (Socket.send command (control_socket w)) as [[e1|[]] s1] eqn:E1.
  - intros H; inversion H; subst. apply send_raises in E1. now destruct e.
  - cbn [control_socket trace].
    destruct (Socket.recv s1) as [[e2|m] s2] eqn:E2.
    + intros H; inversion H; subst. apply recv_raises in E2. now destruct e.
    + destruct (negb (Socket.str m =? "OK")%string);
        intros H; inversion H; reflexivity.
Qed.

Lemma round_trip_trace (command : string) (w : World) :
  trace (snd (round_trip_of command w)) = trace w.
Proof.
  unfold round_trip_of, bind, on_socket.
  destruct (Socket.send command (control_socket w)) as [[e1|[]] s1]; [reflexivity|].
  cbn [control_socket trace].
  destruct (Socket.recv s1) as [[e2|m] s2]; [reflexivity|].
  destruct (negb (Socket.str m =? "OK")%string); reflexivity.
Qed.

Lemma verdict_ok (m : Socket.ControlMessage) :
  verdict m = inr tt <-> Socket.str m = "OK".
Proof.
  unfold verdict. destruct (String.eqb_spec (Socket.str m) "OK") as [E|E].
  - tauto.
  - split; [discriminate | contradiction].
Qed.

Lemma verdict_rejected (m : Socket.ControlMessage) :
  Socket.str m <> "OK" -> verdict m = inl (ValueError (Socket.str m)).
Proof.
  unfold verdict. destruct (String.eqb_spec (Socket.str m) "OK"); tauto.
Qed.

Section Handshakes.

Context {TorVersion : Type} (env : Env TorVersion).

Lemma authenticate_none_round_trip w :
  authenticate_none w = round_trip_of "AUTHENTICATE" w.
Proof. reflexivity. Qed.

Lemma authenticate_password_round_trip password w :
  authenticate_password password w
  = round_trip_of ("AUTHENTICATE " ++ String Py.dquote (Py.escape_quotes password)
                   ++ String Py.dquote EmptyString) w.
Proof. reflexivity. Qed.

Lemma authenticate_cookie_missing cookie_path w :
  fs env cookie_path = None ->
  authenticate_cookie env cookie_path w
  = (inl (OSError (AUTH_COOKIE_MISSING cookie_path)),
     mkWorld (control_socket w) (trace w ++ [PathExists cookie_path])).
Proof.
  intros Hf. unfold authenticate_cookie.
  unfold bind at 1. unfold on_trace at 1, os_path_exists, bind at 1, emit at 1, ret at 1.
  rewrite Hf. cbn [negb]. unfold bind at 1. now rewrite raise_if_true.
Qed.

Lemma authenticate_cookie_wrong_size cookie_path f w :
  fs env cookie_path = Some f -> st_size f <> 32 ->
  authenticate_cookie env cookie_path w
  = (inl (ValueError (AUTH_COOKIE_WRONG_SIZE cookie_path (st_size f))),
     mkWorld (control_socket w)
             (trace w ++ [PathExists cookie_path; GetSize cookie_path])).
Proof.
  intros Hf Hs. unfold authenticate_cookie.
  unfold bind at 1. unfold on_trace at 1, os_path_exists, bind at 1, emit at 1, ret at 1.
  rewrite Hf. cbn [negb]. unfold bind at 1. rewrite raise_if_false.
  unfold bind at 1. unfold on_trace at 1, os_path_getsize, bind at 1, emit at 1.
  cbn [trace control_socket]. rewrite Hf. unfold ret at 1.
  destruct (Z.eqb_spec (st_size f) 32) as [E|E]; [contradiction|].
  cbn [negb]. unfold bind at 1. rewrite raise_if_true.
  now rewrite <- app_assoc.
Qed.

(** The cookie handshake once the file passed both checks: the file is read,
    and unless reading fails the round trip runs on its hex-encoded
    contents. *)
Lemma authenticate_cookie_valid cookie_path f w :
  fs env cookie_path = Some f -> st_size f = 32 ->
  let w1 := mkWorld (control_socket w)
                    (trace w ++ [PathExists cookie_path; GetSize cookie_path;
                                 FileRead cookie_path]) in
  authenticate_cookie env cookie_path w
  = match data f with
    | Some contents =>
        round_trip_of ("AUTHENTICATE " ++ Py.b2a_hex contents) w1
    | None =>
        (inl (OSError ("Permission denied: '" ++ cookie_path ++ "'")), w1)
    end.
Proof.
  intros Hf Hs w1. subst w1. destruct w as [sock tr].
  unfold authenticate_cookie.
  unfold bind at 1. unfold on_trace at 1, os_path_exists, bind at 1, emit at 1, ret at 1.
  cbn [trace control_socket]. rewrite Hf. cbn [negb].
  unfold bind at 1. rewrite raise_if_false.
  unfold bind at 1. unfold on_trace at 1, os_path_getsize, bind at 1, emit at 1.
  cbn [trace control_socket]. rewrite Hf. unfold ret at 1. rewrite Hs.
  cbn [Z.eqb Pos.eqb negb].
  unfold bind at 1. rewrite raise_if_false.
  rewrite <- !app_assoc. cbn [app].
  destruct (data f) as [contents|] eqn:Hd.
  - rewrite try_except_transparent.
    + unfold bind at 1. unfold on_trace at 1, read_file, bind at 1, emit at 1.
      cbn [trace control_socket]. rewrite Hf, Hd. unfold ret at 1.
      rewrite <- !app_assoc. reflexivity.
    + intros e s'.
      unfold bind at 1. unfold on_trace at 1, read_file, bind at 1, emit at 1.
      cbn [trace control_socket]. rewrite Hf, Hd. unfold ret at 1.
      intros E. now apply round_trip_raises in E.
  - unfold try_except.
    unfold bind at 1. unfold on_trace at 1, read_file, bind at 1, emit at 1.
    cbn [trace control_socket]. rewrite Hf, Hd. unfold raise at 1.
    cbn [is_IOError str_exn]. unfold raise. rewrite <- !app_assoc. reflexivity.
Qed.

End Handshakes.

Lemma skipn_past {A : Type} (l l' : list A) :
  skipn (List.length l) (l ++ l') = l'.
Proof. induction l; cbn; auto. Qed.

(** ** The cookie handshake validates before it reads *)

(** C1.  [authenticate_cookie] on a path that does not exist raises the
    missing-cookie error naming the path; on a file whose size is not 32 it
    raises the wrong-size error naming the path and the size; in both cases
    the socket is left exactly as it was and the only file system calls are
    the existence and size checks.  On a file of 32 bytes that can be read
    the contents are read, hex-encoded and sent.  Whenever the file was read
    or something was sent, the file exists and has 32 bytes. *)
Theorem authenticate_cookie_validates_first
    {TorVersion : Type} (env : Env TorVersion) (cookie_path : string) (w : World) :
  (fs env cookie_path = None ->
   authenticate_cookie env cookie_path w
   = (inl (OSError (AUTH_COOKIE_MISSING cookie_path)),
      mkWorld (control_socket w) (trace w ++ [PathExists cookie_path])))
  /\ (forall f, fs env cookie_path = Some f -> st_size f <> 32 ->
      authenticate_cookie env cookie_path w
      = (inl (ValueError (AUTH_COOKIE_WRONG_SIZE cookie_path (st_size f))),
         mkWorld (control_socket w)
                 (trace w ++ [PathExists cookie_path; GetSize cookie_path])))
  /\ (forall f contents,
      fs env cookie_path = Some f -> st_size f = 32 -> data f = Some contents ->
      authenticate_cookie env cookie_path w
      = round_trip_of ("AUTHENTICATE " ++ Py.b2a_hex contents)
          (mkWorld (control_socket w)
                   (trace w ++ [PathExists cookie_path; GetSize cookie_path;
                                FileRead cookie_path])))
  /\ (forall r w',
      authenticate_cookie env cookie_path w = (r, w') ->
      In (FileRead cookie_path) (skipn (List.length (trace w)) (trace w'))
      \/ Socket.sent (control_socket w') <> Socket.sent (control_socket w) ->
      exists f, fs env cookie_path = Some f /\ st_size f = 32).
Proof.
  repeat split.
  - apply authenticate_cookie_missing.
  - intros f. apply authenticate_cookie_wrong_size.
  - intros f contents Hf Hs Hd.
    rewrite (authenticate_cookie_valid env cookie_path f w Hf Hs), Hd. reflexivity.
  - intros r w' Hrun Hdid.
    destruct (fs env cookie_path) as [f|] eqn:Hf.
    + destruct (Z.eq_dec (st_size f) 32) as [Hs|Hs]; [eauto|].
      rewrite (authenticate_cookie_wrong_size env cookie_path f w Hf Hs) in Hrun.
      inversion Hrun; subst; clear Hrun. cbn [trace control_socket] in Hdid.
      rewrite skipn_past in Hdid.
      destruct Hdid as [[H|[H|[]]]|H]; try discriminate; contradiction.
    + rewrite (authenticate_cookie_missing env cookie_path w Hf) in Hrun.
      inversion Hrun; subst; clear Hrun. cbn [trace control_socket] in Hdid.
      rewrite skipn_past in Hdid.
      destruct Hdid as [[H|[]]|H]; try discriminate; contradiction.
Qed.

Lemma authenticate_cookie_validates_first_witness :
  authenticate_cookie Sample.env "/home/atagar/.bash_history" (Sample.answering ["OK"])
  = (inl (ValueError ("Authentication failed: authentication cookie "
                      ++ "'/home/atagar/.bash_history' is the wrong size "
                      ++ "(16 bytes instead of 32)")),
     mkWorld (control_socket (Sample.answering ["OK"]))
             [PathExists "/home/atagar/.bash_history";
              GetSize "/home/atagar/.bash_history"])
  /\ authenticate_cookie Sample.env "/nowhere" (Sample.answering ["OK"])
     = (inl (OSError "Authentication failed: '/nowhere' doesn't exist"),
        mkWorld (control_socket (Sample.answering ["OK"])) [PathExists "/nowhere"])
  /\ authenticate_cookie Sample.env "/var/lib/tor/control_auth_cookie"
       (Sample.answering ["OK"])
     = round_trip_of ("AUTHENTICATE " ++ Py.b2a_hex Sample.cookie)
         (mkWorld (control_socket (Sample.answering ["OK"]))
                  [PathExists "/var/lib/tor/control_auth_cookie";
                   GetSize "/var/lib/tor/control_auth_cookie";
                   FileRead "/var/lib/tor/control_auth_cookie"]).
Proof.
  split; [|split].
  - apply (proj1 (proj2 (authenticate_cookie_validates_first
                           Sample.env "/home/atagar/.bash_history"
                           (Sample.answering ["OK"])))
                 (mkFile 16 (Some "ls -l /var/lib/t"))).
    + reflexivity.
    + simpl. lia.
  - apply (proj1 (authenticate_cookie_validates_first
                    Sample.env "/nowhere" (Sample.answering ["OK"]))).
    reflexivity.
  - apply (proj1 (proj2 (proj2 (authenticate_cookie_validates_first
                                  Sample.env "/var/lib/tor/control_auth_cookie"
                                  (Sample.answering ["OK"]))))
                 (mkFile 32 (Some Sample.cookie)) Sample.cookie);
      reflexivity.
Defined.

(** ** The three handshakes judge the reply alike *)

(** C8.  On a connected socket whose daemon answers the command with [m],
    each of the three handshakes (the cookie one on a readable cookie file of
    32 bytes) succeeds exactly when [str m] is OK, and otherwise raises
    ValueError carrying [str m]. *)
Theorem handshake_succeeds_iff_OK
    {TorVersion : Type} (env : Env TorVersion) (w : World)
    (m : Socket.ControlMessage) (password cookie_path : string)
    (f : File) (contents : string) :
  answers_next (control_socket w) m ->
  fs env cookie_path = Some f -> st_size f = 32 -> data f = Some contents ->
  Forall (fun outcome : Exn + unit =>
            (outcome = inr tt <-> Socket.str m = "OK")
            /\ (Socket.str m <> "OK" -> outcome = inl (ValueError (Socket.str m))))
         [ fst (authenticate_none w);
           fst (authenticate_password password w);
           fst (authenticate_cookie env cookie_path w) ].
Proof.
  intros Hn Hf Hs Hd.
  assert (Hv : forall r, r = verdict m ->
                 (r = inr tt <-> Socket.str m = "OK")
                 /\ (Socket.str m <> "OK" -> r = inl (ValueError (Socket.str m)))).
  { intros r ->. split; [apply verdict_ok | apply verdict_rejected]. }
  apply Forall_cons; [|apply Forall_cons; [|apply Forall_cons; [|apply Forall_nil]]];
    apply Hv.
  - rewrite authenticate_none_round_trip.
    destruct (round_trip w m "AUTHENTICATE" Hn) as (s' & -> & _). reflexivity.
  - rewrite authenticate_password_round_trip.
    match goal with |- context [round_trip_of ?c w] =>
      destruct (round_trip w m c Hn) as (s' & -> & _) end.
    reflexivity.
  - rewrite (authenticate_cookie_valid env cookie_path f w Hf Hs), Hd.
    match goal with |- context [round_trip_of ?c ?w1] =>
      destruct (round_trip w1 m c Hn) as (s' & -> & _) end.
    reflexivity.
Qed.

Lemma handshake_succeeds_iff_OK_witness :
  Forall (fun outcome : Exn + unit =>
            (outcome = inr tt <-> Socket.str ["515 Bad authentication"] = "OK")
            /\ (Socket.str ["515 Bad authentication"] <> "OK" ->
                outcome = inl (ValueError (Socket.str ["515 Bad authentication"]))))
         [ fst (authenticate_none (Sample.answering ["515 Bad authentication"]));
           fst (authenticate_password "secret"
                  (Sample.answering ["515 Bad authentication"]));
           fst (authenticate_cookie Sample.env "/var/lib/tor/control_auth_cookie"
                  (Sample.answering ["515 Bad authentication"])) ].
Proof.
  apply (handshake_succeeds_iff_OK Sample.env
           (Sample.answering ["515 Bad authentication"])
           ["515 Bad authentication"] "secret"
           "/var/lib/tor/control_auth_cookie"
           (mkFile 32 (Some Sample.cookie)) Sample.cookie).
  - repeat split; reflexivity.
  - reflexivity.
  - reflexivity.
  - reflexivity.
Defined.

(** ** Discovery closes the socket when a controller error escapes *)

(** C10.  When [get_protocolinfo_by_port] or [get_protocolinfo_by_socket]
    ends with a ProtocolError or a SocketError, the socket it worked on is
    closed at that point, whatever [get_socket] was. *)
Theorem discovery_closes_on_controller_error
    {TorVersion : Type} (env : Env TorVersion)
    (control_addr : string) (control_port : Z) (socket_path : string)
    (get_socket : bool) (events : list Event) (e : Exn) (w' : World) :
  is_ControllerError e = true ->
  (get_protocolinfo_by_port env control_addr control_port get_socket events
   = (inl e, w') -> Socket.is_alive (control_socket w') = false)
  /\ (get_protocolinfo_by_socket env socket_path get_socket events
      = (inl e, w') -> Socket.is_alive (control_socket w') = false).
Proof.
  intros He.
  split; unfold get_protocolinfo_by_port, get_protocolinfo_by_socket, try_except;
    match goal with |- match ?body ?w0 with _ => _ end = _ -> _ =>
      generalize (body w0) end;
    intros [[e0|a] w1]; try discriminate;
    destruct (is_ControllerError e0) eqn:E0.
  all: try (unfold bind, on_socket, Socket.close, raise; cbn [control_socket trace];
            intros H; inversion H; subst; reflexivity).
  all: intros H; inversion H; subst; congruence.
Qed.

Lemma discovery_closes_on_controller_error_witness :
  let e := ProtocolError
             ("PROTOCOLINFO response's AUTH line is missing its mandatory 'METHODS' mapping: "
              ++ "AUTH COOKIEFILE=/var/lib/tor/cookie") in
  let run := get_protocolinfo_by_port Daemon.env "127.0.0.1" 9053 true [] in
  Socket.connect (ControlPort Daemon.env "127.0.0.1" 9053)
  = (inr tt, Socket.mkSocket true [] Daemon.no_mapping)
  /\ fst run = inl e
  /\ Socket.sent (control_socket (snd run)) = ["PROTOCOLINFO 1"]
  /\ Socket.is_alive (control_socket (snd run)) = false.
Proof.
  intros e run. split; [reflexivity|]. split; [reflexivity|]. split; [reflexivity|].
  apply (proj1 (discovery_closes_on_controller_error Daemon.env
                  "127.0.0.1" 9053 "/var/run/tor/control" true [] e (snd run)
                  eq_refl)).
  reflexivity.
Defined.

(** ** The cookie path resolver *)

Section Resolver.

Context {TorVersion : Type} (env : Env TorVersion).

Lemma set_cookie_path_same (r : ProtocolInfoResponse TorVersion) :
  set_cookie_path r (cookie_path r) = r.
Proof. now destruct r. Qed.

Ltac close_case :=
  intros;
  repeat match goal with
         | H : Some _ = Some _ |- _ => injection H as H; try subst
         | H : Some _ = None |- _ => discriminate H
         | H : None = Some _ |- _ => discriminate H
         | H1 : ?x = Some _, H2 : ?x = Some _ |- _ => rewrite H1 in H2
         | H1 : ?x = Some _, H2 : ?x = None |- _ => rewrite H1 in H2
         end;
  try reflexivity; try contradiction; try discriminate; try congruence; auto.

(** What [_expand_cookie_path] does, case by case. *)
Lemma expand_cookie_path_outcome
    (r : ProtocolInfoResponse TorVersion) (q : PidQuery) (t : list Event) :
  _expand_cookie_path env r q t
  = match cookie_path r with
    | Some path =>
        if negb (path =? EmptyString)%string && is_relative_path env path then
          match pid_resolver env q with
          | Some pid =>
              if pid =? 0
              then (inr r, t ++ [PidLookup q; unable q "pid lookup failed"])%list
              else
                match get_cwd env pid with
                | Some cwd =>
                    if (cwd =? EmptyString)%string
                    then (inr r, t ++ [PidLookup q; CwdLookup pid;
                                       unable q "cwd lookup failed"])%list
                    else (inr (set_cookie_path r (Some (expand_path env path cwd))),
                          t ++ [PidLookup q; CwdLookup pid])%list
                | None =>
                    (inr r, t ++ [PidLookup q; CwdLookup pid;
                                  unable q "cwd lookup failed"])%list
                end
          | None => (inr r, t ++ [PidLookup q; unable q "pid lookup failed"])%list
          end
        else (inr r, t)
    | None => (inr r, t)
    end.
Proof.
  destruct r as [pv tv [path|] am um];
    unfold _expand_cookie_path, try_except, resolve_cookie_path, LOGGER, bind, emit,
      raise_if, raise, ret, truthy_str, truthy_int, set_cookie_path, unable;
    cbn [cookie_path protocol_version tor_version auth_methods unknown_auth_methods];
    [|reflexivity].
  destruct (path =? EmptyString)%string; cbn [negb andb]; [reflexivity|].
  destruct (is_relative_path env path); [|reflexivity].
  destruct (pid_resolver env q) as [pid|]; cbn [negb is_IOError str_exn];
    [|now rewrite <- ?app_assoc].
  destruct (pid =? 0); cbn [negb is_IOError str_exn]; [now rewrite <- ?app_assoc|].
  destruct (get_cwd env pid) as [cwd|]; cbn [negb is_IOError str_exn];
    [|now rewrite <- ?app_assoc].
  destruct (cwd =? EmptyString)%string; cbn [negb is_IOError str_exn];
    now rewrite <- ?app_assoc.
Qed.

(** C7.  [_expand_cookie_path] always returns.  It hands back the response
    unchanged when the cookie path is None, when the path is not relative
    (then without any lookup or log record), when the pid lookup gives
    nothing and when the working directory lookup gives nothing.  When the
    path is relative and both lookups give something, the cookie path becomes
    [expand_path path cwd]; and whenever the response changed, that is what
    happened. *)
Theorem expand_cookie_path_best_effort
    (r : ProtocolInfoResponse TorVersion) (q : PidQuery) (t : list Event) :
  exists r' t',
    _expand_cookie_path env r q t = (inr r', t')
    /\ (cookie_path r = None -> r' = r /\ t' = t)
    /\ (forall path, cookie_path r = Some path ->
        is_relative_path env path = false -> r' = r /\ t' = t)
    /\ (truthy_int (pid_resolver env q) = false -> r' = r)
    /\ (forall pid, pid_resolver env q = Some pid ->
        truthy_str (get_cwd env pid) = false -> r' = r)
    /\ (forall path pid cwd,
        cookie_path r = Some path -> path <> EmptyString ->
        is_relative_path env path = true ->
        pid_resolver env q = Some pid -> pid <> 0 ->
        get_cwd env pid = Some cwd -> cwd <> EmptyString ->
        r' = set_cookie_path r (Some (expand_path env path cwd)))
    /\ (r' <> r ->
        exists path pid cwd,
          cookie_path r = Some path /\ is_relative_path env path = true
          /\ pid_resolver env q = Some pid /\ pid <> 0
          /\ get_cwd env pid = Some cwd /\ cwd <> EmptyString
          /\ r' = set_cookie_path r (Some (expand_path env path cwd))).
Proof.
  rewrite expand_cookie_path_outcome.
  destruct (cookie_path r) as [path|] eqn:Hp.
  2:{ exists r, t. repeat split; close_case. }
  destruct (String.eqb_spec path EmptyString) as [He|He]; cbn [negb andb].
  { exists r, t. repeat split; close_case. }
  destruct (is_relative_path env path) eqn:Hrel.
  2:{ exists r, t. repeat split; close_case. }
  destruct (pid_resolver env q) as [pid|] eqn:Hpid.
  2:{ eexists r, _. repeat split; close_case. }
  destruct (Z.eqb_spec pid 0) as [Hz|Hz].
  { eexists r, _. repeat split; close_case. }
  assert (Hpid_ok : truthy_int (Some pid) = true).
  { unfold truthy_int. now destruct (Z.eqb_spec pid 0). }
  destruct (get_cwd env pid) as [cwd|] eqn:Hcwd.
  2:{ eexists r, _. repeat split; close_case. }
  destruct (String.eqb_spec cwd EmptyString) as [Hc|Hc].
  { eexists r, _. repeat split; close_case. }
  assert (Hcwd_ok : truthy_str (Some cwd) = true).
  { unfold truthy_str. now destruct (String.eqb_spec cwd EmptyString). }
  eexists (set_cookie_path r (Some (expand_path env path cwd))), _.
  repeat split; close_case.
  exists path, pid, cwd. repeat split; auto.
Qed.

End Resolver.

Lemma expand_cookie_path_best_effort_witness :
  exists r' t',
    _expand_cookie_path Sample.env
      (mkResponse (Some 1) None (Some "control_auth_cookie") [COOKIE] [])
      (get_pid_by_port 9051) [] = (inr r', t')
    /\ r' = mkResponse (Some 1) None (Some "/var/lib/tor/control_auth_cookie")
                       [COOKIE] [].
Proof.
  destruct (expand_cookie_path_best_effort Sample.env
              (mkResponse (Some 1) None (Some "control_auth_cookie") [COOKIE] [])
              (get_pid_by_port 9051) [])
    as (r' & t' & Hrun & _ & _ & _ & _ & Hjoin & _).
  exists r', t'. split; [exact Hrun|].
  apply (Hjoin "control_auth_cookie" 4242 "/var/lib/tor");
    try reflexivity; try discriminate.
Defined.

(** ** Computations on the trace *)

Section Traced.

Context {P : Event -> Prop}.

Lemma traced_ret {A : Type} (a : A) : traced P (ret a).
Proof. exists (inr a), []. split; [|constructor]. intros t. now rewrite app_nil_r. Qed.

Lemma traced_raise {A : Type} (e : Exn) : traced P (@raise _ A e).
Proof. exists (inl e), []. split; [|constructor]. intros t. now rewrite app_nil_r. Qed.

Lemma traced_lift_result {A : Type} (r : Exn + A) : traced P (lift_result r).
Proof. exists r, []. split; [|constructor]. intros t. now rewrite app_nil_r. Qed.

Lemma traced_raise_if (c : bool) (e : Exn) : traced P (raise_if c e).
Proof. destruct c; [apply traced_raise | apply traced_ret]. Qed.

Lemma traced_emit (e : Event) : P e -> traced P (emit e).
Proof. intros He. exists (inr tt), [e]. split; [reflexivity|]. now constructor. Qed.

Lemma traced_bind {A B : Type} (m : M (list Event) A) (k : A -> M (list Event) B) :
  traced P m -> (forall a, traced P (k a)) -> traced P (bind m k).
Proof.
  intros (r & evs & Hm & Hevs) Hk. destruct r as [e|a].
  - exists (inl e), evs. split; [|exact Hevs].
    intros t. unfold bind. now rewrite Hm.
  - destruct (Hk a) as (r' & evs' & Hk' & Hevs').
    exists r', (evs ++ evs')%list. split.
    + intros t. unfold bind. now rewrite Hm, Hk', app_assoc.
    + apply Forall_app. now split.
Qed.

Lemma traced_try_except {A : Type} (m : M (list Event) A) c h :
  traced P m -> (forall e, traced P (h e)) -> traced P (try_except m c h).
Proof.
  intros (r & evs & Hm & Hevs) Hh. destruct r as [e|a].
  - destruct (c e) eqn:Hc.
    + destruct (Hh e) as (r' & evs' & Hh' & Hevs').
      exists r', (evs ++ evs')%list. split.
      * intros t. unfold try_except. now rewrite Hm, Hc, Hh', app_assoc.
      * apply Forall_app. now split.
    + exists (inl e), evs. split; [|exact Hevs].
      intros t. unfold try_except. now rewrite Hm, Hc.
  - exists (inr a), evs. split; [|exact Hevs].
    intros t. unfold try_except. now rewrite Hm.
Qed.

(** Knowing one run of a traced computation tells how every run ends. *)
Lemma traced_run {A : Type} (m : M (list Event) A) t r t' :
  traced P m -> m t = (r, t') ->
  exists evs, t' = (t ++ evs)%list /\ Forall P evs
              /\ forall t0, m t0 = (r, (t0 ++ evs)%list).
Proof.
  intros (r0 & evs & Hm & Hevs) Hrun. rewrite Hm in Hrun.
  inversion Hrun; subst. exists evs. auto.
Qed.

End Traced.

Ltac traced_step :=
  first
    [ apply traced_ret
    | apply traced_raise
    | apply traced_raise_if
    | apply traced_lift_result
    | apply traced_emit; exact I
    | apply traced_bind; [|intros]
    | apply traced_try_except; [|intros]
    | match goal with
      | |- traced _ (match ?x with _ => _ end) => destruct x
      | |- traced _ (if ?c then _ else _) => destruct c
      | |- traced _ (let (_, _) := ?x in _) => destruct x
      end ].

Ltac traced_auto := repeat traced_step.

(** ** The tokenizer *)

Lemma prefix_app (v w : string) : String.prefix v (v ++ w) = true.
Proof.
  induction v as [|c v IH]; cbn.
  - now destruct w.
  - destruct (Ascii.ascii_dec c c) as [_|N]; [exact IH|contradiction].
Qed.

Lemma prefix_refl (v : string) : String.prefix v v = true.
Proof.
  induction v as [|c v IH]; cbn; [reflexivity|].
  destruct (Ascii.ascii_dec c c) as [_|N]; [exact IH|contradiction].
Qed.

Lemma split_once_spec (sep : ascii) (s v r : string) :
  Py.split_once sep s = Some (v, r) -> s = v ++ String sep r.
Proof.
  revert v r. induction s as [|c s IH]; cbn; intros v r; [discriminate|].
  destruct (Ascii.eqb_spec c sep) as [->|N].
  - intros [= <- <-]. reflexivity.
  - destruct (Py.split_once sep s) as [[a b]|]; [|discriminate].
    intros [= <- <-]. cbn. f_equal. now apply IH.
Qed.

Lemma pop_nonempty (l : Socket.ControlLine) tok l' :
  Socket.pop l = inr (tok, l') -> Socket.is_empty l = false.
Proof. unfold Socket.pop. destruct (Socket.is_empty l); [discriminate|reflexivity]. Qed.

(** [pop] written out: the guard of [parse_entry] never fires behind the
    one of [pop]. *)
Lemma pop_outcome (l : Socket.ControlLine) :
  Socket.pop l
  = if Socket.is_empty l then inl (IndexError "no remaining content to parse")
    else match Py.split_once " " (Socket.remainder l) with
         | Some (v, r) => inr (v, Socket.mkLine (Socket.content l) (Py.lstrip r))
         | None => inr (Socket.remainder l, Socket.mkLine (Socket.content l) EmptyString)
         end.
Proof.
  unfold Socket.pop, Socket.parse_entry, Socket.is_empty.
  destruct (Socket.remainder l =? EmptyString)%string; [reflexivity|].
  now destruct (Py.split_once " " (Socket.remainder l)) as [[v r]|].
Qed.

Lemma pop_total (l : Socket.ControlLine) :
  Socket.is_empty l = false -> exists tok l', Socket.pop l = inr (tok, l').
Proof.
  rewrite pop_outcome. intros ->.
  destruct (Py.split_once " " (Socket.remainder l)) as [[v r]|]; eauto.
Qed.

Lemma pop_content (l : Socket.ControlLine) tok l' :
  Socket.pop l = inr (tok, l') -> Socket.content l' = Socket.content l.
Proof.
  rewrite pop_outcome. destruct (Socket.is_empty l); [discriminate|].
  destruct (Py.split_once " " (Socket.remainder l)) as [[v r]|];
    intros [= <- <-]; reflexivity.
Qed.

(** The leading entry of a fresh line is a prefix of the line. *)
Lemma pop_prefix (value tok : string) l' :
  Socket.pop (Socket.line_of value) = inr (tok, l') ->
  Py.startswith value tok = true.
Proof.
  rewrite pop_outcome. unfold Socket.line_of, Py.startswith.
  cbn [Socket.remainder Socket.content].
  destruct (Socket.is_empty _); [discriminate|].
  destruct (Py.split_once " " value) as [[v r]|] eqn:E.
  - intros [= <- <-]. apply split_once_spec in E. subst value. apply prefix_app.
  - intros [= <- <-]. apply prefix_refl.
Qed.

(** Only the line OK has OK as its leading entry with nothing behind. *)
Lemma pop_of_OK (tok : string) l' :
  Socket.pop (Socket.line_of "OK") = inr (tok, l') -> tok = "OK".
Proof. cbn. now intros [= <- <-]. Qed.

Lemma key_match_nonempty (s k r : string) :
  Socket.key_match s = Some (k, r) -> s <> EmptyString.
Proof. intros H ->. discriminate H. Qed.

(** A quoted mapping that [is_next_mapping] announces can be popped: its
    value starts with a quote, so there is an entry to take. *)
Lemma pop_mapping_quoted key escaped (l : Socket.ControlLine) :
  Socket.is_next_mapping key true escaped l = true ->
  exists mapping l', Socket.pop_mapping true escaped l = inr (mapping, l').
Proof.
  unfold Socket.is_next_mapping, Socket.pop_mapping, Socket.is_empty.
  destruct (Socket.key_match (Socket.remainder l)) as [[k r]|] eqn:Hk; [|discriminate].
  apply key_match_nonempty in Hk.
  destruct (String.eqb_spec (Socket.remainder l) EmptyString) as [E|_]; [contradiction|].
  destruct (negb (key =? EmptyString)%string && negb (key =? k)%string); [discriminate|].
  unfold Socket.parse_entry.
  destruct (Socket.quoted_entry escaped r) as [[v r']|] eqn:Hq; [|discriminate].
  destruct r as [|c r0]; [discriminate Hq|]. cbn [String.eqb]. eauto.
Qed.

Lemma key_split_spec (s : string) : forall k r,
  Socket.key_split s = Some (k, r) -> s = (k ++ String "=" r)%string.
Proof.
  induction s as [|c s IH]; intros k r; cbn [Socket.key_split]; [discriminate|].
  destruct (Py.isspace c); [discriminate|].
  destruct (Ascii.eqb_spec c "=") as [->|_]; [now intros [= <- <-]|].
  destruct (Socket.key_split s) as [[k0 r0]|]; [|discriminate].
  intros [= <- <-]. cbn. f_equal. now apply IH.
Qed.

(** The one way in which [pop_mapping] fails on a METHODS mapping that
    [is_next_mapping] announces: the line ends with the equals sign. *)
Lemma pop_mapping_METHODS_fails (l : Socket.ControlLine) (e : Exn) :
  Socket.is_next_mapping "METHODS" false false l = true ->
  Socket.pop_mapping false false l = inl e ->
  e = IndexError "no remaining content to parse"
  /\ Socket.remainder l = "METHODS=".
Proof.
  unfold Socket.is_next_mapping, Socket.pop_mapping, Socket.is_empty.
  destruct (Socket.key_match (Socket.remainder l)) as [[k r]|] eqn:Hk; [|discriminate].
  pose proof (key_match_nonempty _ _ _ Hk) as Hne.
  destruct (String.eqb_spec (Socket.remainder l) EmptyString) as [E|_]; [contradiction|].
  destruct (String.eqb_spec "METHODS" k) as [<-|_]; [|discriminate]. intros _.
  assert (Hs : Socket.key_split (Socket.remainder l) = Some ("METHODS", r)).
  { unfold Socket.key_match in Hk.
    destruct (Socket.key_split (Socket.remainder l)) as [[[|c k'] r']|];
      try discriminate; exact Hk. }
  apply key_split_spec in Hs. unfold Socket.parse_entry.
  destruct r as [|c r]; cbn [String.eqb].
  - intros [= <-]. split; [reflexivity|exact Hs].
  - destruct (Py.split_once " " (String c r)) as [[v r']|]; discriminate.
Qed.

(** A mapping without quotes that [is_next_mapping] announces can be popped
    unless nothing stands behind its equals sign; then [pop_mapping] raises
    the IndexError of [parse_entry]. *)
Lemma pop_mapping_unquoted key (l : Socket.ControlLine) :
  Socket.is_next_mapping key false false l = true ->
  (exists mapping l', Socket.pop_mapping false false l = inr (mapping, l'))
  \/ Socket.pop_mapping false false l
     = inl (IndexError "no remaining content to parse").
Proof.
  unfold Socket.is_next_mapping, Socket.pop_mapping, Socket.is_empty.
  destruct (Socket.key_match (Socket.remainder l)) as [[k r]|] eqn:Hk; [|discriminate].
  apply key_match_nonempty in Hk.
  destruct (String.eqb_spec (Socket.remainder l) EmptyString) as [E|_]; [contradiction|].
  intros _. unfold Socket.parse_entry.
  destruct (r =? EmptyString)%string; [now right|]. left.
  destruct (Py.split_once " " r) as [[v r']|]; eauto.
Qed.

(** ** The method list of an AUTH line *)

Lemma spec_method_known name m : spec_method_of name = Some m -> is_known m = true.
Proof.
  unfold spec_method_of.
  repeat match goal with |- context [if ?c then _ else _] => destruct c end;
    intros [= <-]; reflexivity.
Qed.

Lemma count_UNKNOWN_app l l' :
  count_UNKNOWN (l ++ l') = (count_UNKNOWN l + count_UNKNOWN l')%nat.
Proof. unfold count_UNKNOWN. now rewrite filter_app, length_app. Qed.

Lemma count_UNKNOWN_none l :
  existsb (AuthMethod_eqb UNKNOWN) l = false -> count_UNKNOWN l = 0%nat.
Proof.
  unfold count_UNKNOWN, is_UNKNOWN.
  induction l as [|a l IH]; cbn [existsb filter]; [reflexivity|].
  destruct (AuthMethod_eqb UNKNOWN a); cbn [orb]; [discriminate|exact IH].
Qed.

Lemma existsb_UNKNOWN_In l :
  existsb (AuthMethod_eqb UNKNOWN) l = true <-> In UNKNOWN l.
Proof.
  rewrite existsb_exists. split.
  - intros (x & Hin & Hx). now destruct x.
  - intros Hin. now exists UNKNOWN.
Qed.

(** One name: a recognised one appends its method, another one appends
    itself to the unknown names and UNKNOWN to the methods unless it is
    there already. *)
Lemma parse_method_outcome am um name t :
  parse_method (am, um) name t
  = match spec_method_of name with
    | Some m => (inr ((am ++ [m])%list, um), t)
    | None =>
        (inr (if existsb (AuthMethod_eqb UNKNOWN) am then am
              else (am ++ [UNKNOWN])%list,
              (um ++ [name])%list),
         (t ++ [Logged INFO
                  ("PROTOCOLINFO response had an unrecognized authentication method: "
                   ++ name)])%list)
    end.
Proof.
  unfold parse_method, spec_method_of.
  destruct (name =? "NULL")%string; [reflexivity|].
  destruct (name =? "HASHEDPASSWORD")%string; [reflexivity|].
  destruct (name =? "COOKIE")%string; [reflexivity|].
  unfold bind, LOGGER, emit.
  destruct (existsb (AuthMethod_eqb UNKNOWN) am); reflexivity.
Qed.

Lemma parse_methods_spec names : forall am um t,
  exists am' um' t',
    parse_methods names (am, um) t = (inr (am', um'), t')
    /\ filter is_known am' = (filter is_known am ++ spec_known_methods names)%list
    /\ um' = (um ++ filter spec_unrecognized names)%list
    /\ (count_UNKNOWN am <= 1 -> count_UNKNOWN am' <= 1)%nat
    /\ (In UNKNOWN am' <->
        In UNKNOWN am \/ exists n, In n names /\ spec_unrecognized n = true).
Proof.
  induction names as [|name rest IH]; intros am um t.
  - exists am, um, t. cbn. rewrite !app_nil_r.
    repeat split; auto. intros [H|(n & [] & _)]; exact H.
  - cbn [parse_methods]. unfold bind at 1. rewrite parse_method_outcome.
    unfold spec_unrecognized, spec_recognized.
    cbn [spec_known_methods filter].
    destruct (spec_method_of name) as [m|] eqn:Hm.
    + destruct (IH (am ++ [m])%list um t) as (am' & um' & t' & Hrun & Hk & Hu & Hc & Hin).
      exists am', um', t'. split; [exact Hrun|].
      pose proof (spec_method_known _ _ Hm) as Hkm.
      split; [|split; [|split]].
      * rewrite Hk, filter_app. cbn [filter]. rewrite Hkm, <- app_assoc. reflexivity.
      * cbn [negb]. exact Hu.
      * intros H. apply Hc. rewrite count_UNKNOWN_app.
        unfold count_UNKNOWN at 2. cbn [filter].
        unfold is_known in Hkm. apply negb_true_iff in Hkm. rewrite Hkm. cbn. lia.
      * rewrite Hin, in_app_iff. cbn [In].
        unfold spec_unrecognized, spec_recognized.
        split.
        -- intros [[H|[H|[]]]|(n & Hn & Hun)]; [now left| |right; eauto].
           subst m. discriminate Hkm.
        -- intros [H|(n & [Hn|Hn] & Hun)]; [now left; left| |right; eauto].
           subst n. rewrite Hm in Hun. discriminate.
    + destruct (existsb (AuthMethod_eqb UNKNOWN) am) eqn:Hex.
      * destruct (IH am (um ++ [name])%list
                    (t ++ [Logged INFO
                             ("PROTOCOLINFO response had an unrecognized authentication method: "
                              ++ name)])%list)
          as (am' & um' & t' & Hrun & Hk & Hu & Hc & Hin).
        exists am', um', t'. split; [exact Hrun|].
        split; [exact Hk|]. split; [|split; [exact Hc|]].
        -- cbn [negb]. rewrite Hu, <- app_assoc. reflexivity.
        -- rewrite Hin. unfold spec_unrecognized, spec_recognized.
           split; [intros [H|(n & Hn & Hun)]; [now left|right; exists n; cbn; auto]|].
           intros [H|(n & Hn & Hun)]; [now left|].
           left. now apply existsb_UNKNOWN_In.
      * destruct (IH (am ++ [UNKNOWN])%list (um ++ [name])%list
                    (t ++ [Logged INFO
                             ("PROTOCOLINFO response had an unrecognized authentication method: "
                              ++ name)])%list)
          as (am' & um' & t' & Hrun & Hk & Hu & Hc & Hin).
        exists am', um', t'. split; [exact Hrun|].
        split; [|split; [|split]].
        -- rewrite Hk, filter_app. cbn. now rewrite app_nil_r.
        -- cbn [negb]. rewrite Hu, <- app_assoc. reflexivity.
        -- intros _. apply Hc. rewrite count_UNKNOWN_app, (count_UNKNOWN_none _ Hex).
           cbn. lia.
        -- rewrite Hin, in_app_iff. cbn [In].
           unfold spec_unrecognized, spec_recognized.
           split.
           ++ intros _. right. exists name. rewrite Hm. cbn. auto.
           ++ intros _. left. right. now left.
Qed.

Lemma parse_methods_traced names lists :
  traced parse_event (parse_methods names lists).
Proof.
  revert lists. induction names as [|name rest IH]; intros lists; cbn [parse_methods].
  - apply traced_ret.
  - apply traced_bind; [|intros a; apply IH].
    unfold parse_method, LOGGER. destruct lists. traced_auto.
Qed.

(** ** The reply parser *)

Section Parser.

Context {TorVersion : Type} (env : Env TorVersion).

Local Abbreviation Response := (ProtocolInfoResponse TorVersion).

Lemma expand_cookie_path_traced (r : Response) (name : string) :
  traced parse_event (_expand_cookie_path env r (get_pid_by_name name)).
Proof.
  unfold _expand_cookie_path, resolve_cookie_path, LOGGER. traced_auto.
Qed.

Lemma parse_line_traced (self : Response) (line : Socket.ControlLine) :
  traced parse_event (parse_line env self line).
Proof.
  unfold parse_line, parse_PROTOCOLINFO, parse_AUTH, parse_VERSION, LOGGER.
  traced_auto; try apply parse_methods_traced; try apply expand_cookie_path_traced.
Qed.

Lemma parse_lines_traced (lines : list string) : forall self : Response,
  traced parse_event (parse_lines env lines self).
Proof.
  induction lines as [|value rest IH]; intros self; cbn [parse_lines].
  - apply traced_ret.
  - destruct (Socket.content (Socket.line_of value) =? "OK")%string;
      [apply traced_ret|].
    destruct (Socket.is_empty (Socket.line_of value)); [apply IH|].
    apply traced_bind; [apply parse_line_traced | intros a; apply IH].
Qed.

Lemma parse_message_traced (msg : Socket.ControlMessage) :
  traced parse_event (_parse_message env msg).
Proof.
  unfold _parse_message. destruct msg as [|first rest]; [apply traced_raise|].
  apply traced_bind; [apply traced_raise_if | intros _; apply parse_lines_traced].
Qed.

(** *** Which branch a line takes *)

Lemma parse_line_PROTOCOLINFO (self : Response) line l1 t :
  Socket.pop line = inr ("PROTOCOLINFO", l1) ->
  parse_line env self line t = parse_PROTOCOLINFO self l1 t.
Proof. intros H. unfold parse_line, bind, lift_result. now rewrite H. Qed.

Lemma parse_line_AUTH (self : Response) line l1 t :
  Socket.pop line = inr ("AUTH", l1) ->
  parse_line env self line t = parse_AUTH env self l1 t.
Proof. intros H. unfold parse_line, bind, lift_result. now rewrite H. Qed.

Lemma parse_line_VERSION (self : Response) line l1 t :
  Socket.pop line = inr ("VERSION", l1) ->
  parse_line env self line t = parse_VERSION env self l1 t.
Proof. intros H. unfold parse_line, bind, lift_result. now rewrite H. Qed.

(** A line whose leading entry was popped is neither OK nor used up, so the
    loop hands it to [parse_line]. *)
Lemma parse_lines_cons (value : string) rest (self : Response) t tok l1 :
  Socket.pop (Socket.line_of value) = inr (tok, l1) -> tok <> "OK" ->
  parse_lines env (value :: rest) self t
  = (self <- parse_line env self (Socket.line_of value) ;;
     parse_lines env rest self) t.
Proof.
  intros Hpop Htok. cbn [parse_lines]. cbn [Socket.content Socket.line_of].
  destruct (String.eqb_spec value "OK") as [->|_].
  - apply pop_of_OK in Hpop. contradiction.
  - now rewrite (pop_nonempty _ _ _ Hpop).
Qed.

(** Lines in front of the first OK that parse without error are followed by
    the rest of the reply. *)
Lemma parse_lines_app pre : forall post (self self' : Response) t t',
  Forall (fun value => value <> "OK") pre ->
  parse_lines env pre self t = (inr self', t') ->
  parse_lines env (pre ++ post) self t = parse_lines env post self' t'.
Proof.
  induction pre as [|value pre IH]; intros post self self' t t' Hok Hrun.
  - cbn in Hrun. inversion Hrun; subst. reflexivity.
  - inversion Hok as [|? ? Hv Hok']; subst.
    cbn [app parse_lines] in Hrun |- *. cbn [Socket.content Socket.line_of] in *.
    destruct (String.eqb_spec value "OK") as [E|_]; [contradiction|].
    destruct (Socket.is_empty _).
    + now apply IH.
    + unfold bind in Hrun |- *.
      destruct (parse_line env self _ t) as [[e|a] t1]; [discriminate|].
      now apply IH.
Qed.

(** *** The resolver inside the parser *)

Lemma expand_cookie_path_returns (r : Response) q t :
  exists p t', _expand_cookie_path env r q t = (inr (set_cookie_path r p), t').
Proof.
  rewrite expand_cookie_path_outcome.
  repeat match goal with
         | |- context [match ?x with _ => _ end] => destruct x eqn:?
         | |- context [if ?c then _ else _] => destruct c
         end;
    try (exists (cookie_path r); rewrite set_cookie_path_same; eauto; fail);
    eauto.
Qed.

Lemma expand_cookie_path_version (r : Response) v q t :
  _expand_cookie_path env (set_protocol_version r v) q t
  = with_version v (_expand_cookie_path env r q t).
Proof.
  rewrite !expand_cookie_path_outcome. destruct r as [pv tv cp am um].
  cbn [set_protocol_version cookie_path protocol_version tor_version auth_methods
       unknown_auth_methods].
  repeat match goal with
         | |- context [match ?x with _ => _ end] => destruct x
         | |- context [if ?c then _ else _] => destruct c
         end; reflexivity.
Qed.

(** *** AUTH lines *)

Lemma parse_AUTH_missing (self : Response) l1 t :
  Socket.is_next_mapping "METHODS" false false l1 = false ->
  exists msg, parse_AUTH env self l1 t = (inl (ProtocolError msg), t).
Proof.
  intros H. unfold parse_AUTH. unfold bind at 1. rewrite H. cbn [negb].
  rewrite raise_if_true. eauto.
Qed.

(** The guard passed but the tokenizer finds no value: what it raises
    leaves [parse_AUTH] as it is. *)
Lemma parse_AUTH_no_value (self : Response) l1 t e :
  Socket.is_next_mapping "METHODS" false false l1 = true ->
  Socket.pop_mapping false false l1 = inl e ->
  parse_AUTH env self l1 t = (inl e, t).
Proof.
  intros H Hpop. unfold parse_AUTH. unfold bind at 1. rewrite H. cbn [negb].
  rewrite raise_if_false. unfold bind at 1. unfold lift_result at 1.
  now rewrite Hpop.
Qed.

Lemma parse_AUTH_present (self : Response) l1 t mapping l2 :
  Socket.is_next_mapping "METHODS" false false l1 = true ->
  Socket.pop_mapping false false l1 = inr (mapping, l2) ->
  exists am um t1 r' t',
    parse_methods (Py.split "," (snd mapping))
         (auth_methods self, unknown_auth_methods self) t = (inr (am, um), t1)
    /\ parse_AUTH env self l1 t = (inr r', t')
    /\ auth_methods r' = am /\ unknown_auth_methods r' = um
    /\ protocol_version r' = protocol_version self
    /\ tor_version r' = tor_version self.
Proof.
  intros H Hpop.
  destruct (parse_methods_spec (Py.split "," (snd mapping))
              (auth_methods self) (unknown_auth_methods self) t)
    as (am & um & t1 & Hrun & _).
  exists am, um, t1.
  unfold parse_AUTH. unfold bind at 1. rewrite H. cbn [negb]. rewrite raise_if_false.
  unfold bind at 1. unfold lift_result at 1. rewrite Hpop.
  unfold bind at 1. rewrite Hrun.
  destruct (Socket.is_next_mapping "COOKIEFILE" true true l2) eqn:Hc.
  - destruct (pop_mapping_quoted _ _ _ Hc) as (mapping' & l3 & Hpop').
    unfold bind at 1. unfold lift_result at 1. rewrite Hpop'.
    match goal with |- context [_expand_cookie_path env ?r ?q ?t0] =>
      destruct (expand_cookie_path_returns r q t0) as (p & t' & ->) end.
    eexists _, t'. repeat split; reflexivity.
  - eexists _, t1. repeat split; reflexivity.
Qed.

Lemma with_version_bind {A : Type} (m : M (list Event) A)
    (k1 k2 : A -> M (list Event) Response) v t :
  (forall a t', k1 a t' = with_version v (k2 a t')) ->
  bind m k1 t = with_version v (bind m k2 t).
Proof.
  intros H. unfold bind. destruct (m t) as [[e|a] t']; [reflexivity|apply H].
Qed.

Lemma parse_AUTH_version (self : Response) v l1 t :
  parse_AUTH env (set_protocol_version self v) l1 t
  = with_version v (parse_AUTH env self l1 t).
Proof.
  destruct self as [pv tv cp am um]. unfold parse_AUTH.
  cbn [set_protocol_version cookie_path protocol_version tor_version auth_methods
       unknown_auth_methods].
  apply with_version_bind; intros _ t0.
  apply with_version_bind; intros [mapping l2] t1.
  apply with_version_bind; intros [am' um'] t2.
  destruct (Socket.is_next_mapping "COOKIEFILE" true true l2); [|reflexivity].
  apply with_version_bind; intros [mapping' l3] t3.
  apply (expand_cookie_path_version
           (mkResponse pv tv (Some (snd mapping')) am' um') v).
Qed.

Lemma parse_VERSION_version (self : Response) v l1 t :
  parse_VERSION env (set_protocol_version self v) l1 t
  = with_version v (parse_VERSION env self l1 t).
Proof.
  destruct self as [pv tv cp am um]. unfold parse_VERSION.
  apply with_version_bind; intros _ t0.
  apply with_version_bind; intros [mapping l2] t1.
  destruct (Version env (snd mapping)); reflexivity.
Qed.

Lemma parse_PROTOCOLINFO_version (self : Response) v l1 t :
  parse_PROTOCOLINFO (set_protocol_version self v) l1 t
  = parse_PROTOCOLINFO self l1 t.
Proof. reflexivity. Qed.

(** *** The protocol version does not steer the parser *)

Lemma same_but_version_refl (r : Response) : same_but_version r r.
Proof. repeat split. Qed.

Lemma same_but_version_set (s1 s2 : Response) :
  same_but_version s1 s2 ->
  s2 = set_protocol_version s1 (protocol_version s2).
Proof.
  destruct s1, s2. unfold same_but_version, set_protocol_version. cbn.
  intros (-> & -> & -> & ->). reflexivity.
Qed.

Lemma same_result_refl (x : (Exn + Response) * list Event) : same_result x x.
Proof.
  destruct x as [[e|r] t]; split; cbn; auto using same_but_version_refl.
Qed.

Lemma same_result_with_version v (x : (Exn + Response) * list Event) :
  same_result x (with_version v x).
Proof. destruct x as [[e|r] t]; split; cbn; auto. repeat split. Qed.

Lemma parse_line_version (self : Response) v line t :
  parse_line env (set_protocol_version self v) line t = parse_line env self line t
  \/ parse_line env (set_protocol_version self v) line t
     = with_version v (parse_line env self line t).
Proof.
  unfold parse_line, bind, lift_result.
  destruct (Socket.pop line) as [e|[tok l1]]; [now left|].
  destruct (tok =? "PROTOCOLINFO")%string; [now left|].
  destruct (tok =? "AUTH")%string; [right; apply parse_AUTH_version|].
  destruct (tok =? "VERSION")%string; [right; apply parse_VERSION_version|].
  right. reflexivity.
Qed.

Lemma parse_line_blind (s1 s2 : Response) line t :
  same_but_version s1 s2 ->
  same_result (parse_line env s1 line t) (parse_line env s2 line t).
Proof.
  intros H. rewrite (same_but_version_set _ _ H).
  destruct (parse_line_version s1 (protocol_version s2) line t) as [-> | ->].
  - apply same_result_refl.
  - apply same_result_with_version.
Qed.

Lemma parse_lines_blind lines : forall (s1 s2 : Response) t,
  same_but_version s1 s2 ->
  same_result (parse_lines env lines s1 t) (parse_lines env lines s2 t).
Proof.
  induction lines as [|value rest IH]; intros s1 s2 t H; cbn [parse_lines].
  - split; cbn; auto.
  - destruct (Socket.content (Socket.line_of value) =? "OK")%string;
      [split; cbn; auto|].
    destruct (Socket.is_empty (Socket.line_of value)); [now apply IH|].
    unfold bind.
    destruct (parse_line_blind s1 s2 (Socket.line_of value) t H) as [Ho Ht].
    destruct (parse_line env s1 _ t) as [[e1|a1] t1],
             (parse_line env s2 _ t) as [[e2|a2] t2];
      cbn in Ho, Ht; subst; try contradiction.
    + split; cbn; auto.
    + now apply IH.
Qed.

(** A header line with an all-digit version: the version is stored, and a
    version other than 1 is logged as a warning. *)
Lemma parse_PROTOCOLINFO_digits (self : Response) l1 tok l2 t :
  Socket.pop l1 = inr (tok, l2) -> Py.isdigit tok = true ->
  parse_PROTOCOLINFO self l1 t
  = (inr (set_protocol_version self (Some (Py.int tok))),
     if Py.int tok =? 1 then t else (t ++ [version_warning (Py.int tok)])%list).
Proof.
  intros Hpop Hd. unfold parse_PROTOCOLINFO.
  unfold bind at 1. rewrite (pop_nonempty _ _ _ Hpop), raise_if_false.
  unfold bind at 1. unfold lift_result. rewrite Hpop.
  unfold bind at 1. rewrite Hd. cbn [negb]. rewrite raise_if_false.
  unfold bind, LOGGER, emit, ret, version_warning.
  destruct (Py.int tok =? 1); reflexivity.
Qed.

Lemma parse_message_header (value : string) rest l1 t :
  Socket.pop (Socket.line_of value) = inr ("PROTOCOLINFO", l1) ->
  _parse_message env (value :: rest) t
  = (self <- parse_PROTOCOLINFO blank l1 ;;
     parse_lines env rest self) t.
Proof.
  intros Hpop. unfold _parse_message.
  unfold bind at 1. rewrite (pop_prefix _ _ _ Hpop). cbn [negb].
  rewrite raise_if_false.
  rewrite (parse_lines_cons _ _ _ _ _ _ Hpop); [|discriminate].
  unfold bind. now rewrite (parse_line_PROTOCOLINFO _ _ _ _ Hpop).
Qed.

(** C6.  A header line whose version token is all digits but not 1 does not
    fail: [parse_line] stores the value as the protocol version and logs one
    warning.  The reply is then parsed like the same reply with version 1:
    both runs log the same events for the remaining lines and end in the same
    error or in responses that differ at most in the protocol version. *)
Theorem unexpected_version_is_tolerated
    (value : string) (l1 : Socket.ControlLine) (tok : string)
    (l2 : Socket.ControlLine) (rest : list string) (t : list Event) :
  Socket.pop (Socket.line_of value) = inr ("PROTOCOLINFO", l1) ->
  Socket.pop l1 = inr (tok, l2) ->
  Py.isdigit tok = true ->
  Py.int tok <> 1 ->
  (forall self : Response,
     parse_line env self (Socket.line_of value) t
     = (inr (set_protocol_version self (Some (Py.int tok))),
        (t ++ [version_warning (Py.int tok)])%list))
  /\ exists out_v out_1 evs,
       _parse_message env (value :: rest) t
       = (out_v, (t ++ version_warning (Py.int tok) :: evs)%list)
       /\ _parse_message env ("PROTOCOLINFO 1" :: rest) t = (out_1, (t ++ evs)%list)
       /\ same_outcome out_v out_1.
Proof.
  intros Hpop Htok Hd Hv.
  assert (Hne : (Py.int tok =? 1) = false) by now apply Z.eqb_neq.
  split.
  - intros self. rewrite (parse_line_PROTOCOLINFO _ _ _ _ Hpop).
    rewrite (parse_PROTOCOLINFO_digits _ _ _ _ _ Htok Hd), Hne. reflexivity.
  - set (init := blank : Response).
    destruct (parse_lines_traced rest (set_protocol_version init (Some (Py.int tok))))
      as (out_v & evs_v & Hrun_v & _).
    destruct (parse_lines_traced rest (set_protocol_version init (Some 1)))
      as (out_1 & evs_1 & Hrun_1 & _).
    assert (Hsame : same_result (out_v, (t ++ evs_v)%list) (out_1, (t ++ evs_1)%list)).
    { rewrite <- Hrun_v, <- Hrun_1. apply parse_lines_blind. repeat split. }
    destruct Hsame as [Ho Ht]. cbn in Ho, Ht. apply app_inv_head in Ht. subst evs_1.
    exists out_v, out_1, evs_v. split; [|split; [|exact Ho]].
    + rewrite (parse_message_header _ _ _ _ Hpop). unfold bind.
      rewrite (parse_PROTOCOLINFO_digits _ _ _ _ _ Htok Hd), Hne.
      fold init. rewrite Hrun_v, <- app_assoc. reflexivity.
    + rewrite (parse_message_header "PROTOCOLINFO 1" rest
                 (Socket.mkLine "PROTOCOLINFO 1" "1") t eq_refl).
      unfold bind. fold init.
      rewrite (parse_PROTOCOLINFO_digits init (Socket.mkLine "PROTOCOLINFO 1" "1") "1"
                 (Socket.mkLine "PROTOCOLINFO 1" EmptyString) t eq_refl eq_refl).
      cbn [Py.int Py.int_acc Z.eqb]. exact (Hrun_1 t).
Qed.

(** *** What each kind of line leaves alone *)

Lemma parse_PROTOCOLINFO_keeps (self r' : Response) l1 t t' :
  parse_PROTOCOLINFO self l1 t = (inr r', t') ->
  auth_methods r' = auth_methods self
  /\ exists tok, Py.isdigit tok = true /\ protocol_version r' = Some (Py.int tok).
Proof.
  unfold parse_PROTOCOLINFO, bind, lift_result.
  destruct (raise_if _ _ t) as [[e|[]] t0]; [discriminate|].
  destruct (Socket.pop l1) as [e|[tok l2]]; [discriminate|].
  destruct (Py.isdigit tok) eqn:Hd; cbn [negb raise_if]; [|discriminate].
  unfold ret at 1.
  destruct (negb (Py.int tok =? 1)); unfold LOGGER, emit, ret;
    intros [= <- <-]; eauto.
Qed.

Lemma parse_VERSION_keeps (self r' : Response) l1 t t' :
  parse_VERSION env self l1 t = (inr r', t') ->
  auth_methods r' = auth_methods self
  /\ protocol_version r' = protocol_version self.
Proof.
  unfold parse_VERSION, bind, lift_result.
  destruct (raise_if _ _ t) as [[e|[]] t0]; [discriminate|].
  destruct (Socket.pop_mapping true false l1) as [e|[mapping l2]]; [discriminate|].
  destruct (Version env (snd mapping)); [discriminate|].
  intros [= <- <-]. auto.
Qed.

Lemma parse_AUTH_keeps (self r' : Response) l1 t t' :
  parse_AUTH env self l1 t = (inr r', t') ->
  (count_UNKNOWN (auth_methods self) <= 1 -> count_UNKNOWN (auth_methods r') <= 1)%nat
  /\ protocol_version r' = protocol_version self.
Proof.
  intros Hrun.
  destruct (Socket.is_next_mapping "METHODS" false false l1) eqn:Hm.
  - destruct (Socket.pop_mapping false false l1) as [e|[mapping l2]] eqn:Hpop;
      [rewrite (parse_AUTH_no_value self l1 t e Hm Hpop) in Hrun; discriminate|].
    destruct (parse_AUTH_present self l1 t mapping l2 Hm Hpop)
      as (am & um & t1 & r & t2 & Hms & Hr & Ha & _ & Hv & _).
    rewrite Hr in Hrun. injection Hrun as <- <-.
    destruct (parse_methods_spec (Py.split "," (snd mapping))
                (auth_methods self) (unknown_auth_methods self) t)
      as (am0 & um0 & t0 & Hms0 & _ & _ & Hc & _).
    rewrite Hms in Hms0. injection Hms0 as <- <- <-.
    rewrite Ha. auto.
  - destruct (parse_AUTH_missing self l1 t Hm) as (msg & Hr).
    rewrite Hr in Hrun. discriminate.
Qed.

Lemma int_acc_nonneg (s : string) : forall acc,
  Py.all_digits s = true -> 0 <= acc -> 0 <= Py.int_acc acc s.
Proof.
  induction s as [|c s IH]; intros acc Hd Hacc;
    cbn [Py.all_digits Py.int_acc] in *; [exact Hacc|].
  apply andb_true_iff in Hd as [Hc Hs]. apply IH; [exact Hs|].
  unfold Py.is_digit in Hc. apply andb_true_iff in Hc as [Hlo _].
  apply N.leb_le in Hlo. lia.
Qed.

Lemma int_nonneg (s : string) : Py.isdigit s = true -> 0 <= Py.int s.
Proof.
  unfold Py.isdigit, Py.int. destruct s; [discriminate|].
  intros H. apply int_acc_nonneg; [exact H|lia].
Qed.

(** What one turn of the loop preserves: at most one UNKNOWN among the
    methods, and a protocol version that is settled once it has been set. *)
Lemma parse_line_keeps (self r' : Response) line t t' :
  parse_line env self line t = (inr r', t') ->
  ((count_UNKNOWN (auth_methods self) <= 1)%nat ->
   (count_UNKNOWN (auth_methods r') <= 1)%nat)
  /\ (settled self -> settled r').
Proof.
  unfold parse_line, bind, lift_result.
  destruct (Socket.pop line) as [e|[tok l1]]; [discriminate|].
  destruct (tok =? "PROTOCOLINFO")%string.
  { intros H. apply parse_PROTOCOLINFO_keeps in H as (Ha & tok' & Hd & Hv).
    rewrite Ha. split; [auto|]. intros _. exists (Py.int tok'). split; [exact Hv|].
    now apply int_nonneg. }
  destruct (tok =? "AUTH")%string.
  { intros H. apply parse_AUTH_keeps in H as (Hc & Hv).
    split; [exact Hc|]. unfold settled. now rewrite Hv. }
  destruct (tok =? "VERSION")%string.
  { intros H. apply parse_VERSION_keeps in H as (Ha & Hv).
    unfold settled. rewrite Ha, Hv. auto. }
  unfold LOGGER, emit, ret. intros [= <- <-]. auto.
Qed.

Lemma parse_lines_keeps lines : forall (self r' : Response) t t',
  parse_lines env lines self t = (inr r', t') ->
  ((count_UNKNOWN (auth_methods self) <= 1)%nat ->
   (count_UNKNOWN (auth_methods r') <= 1)%nat)
  /\ (settled self -> settled r').
Proof.
  induction lines as [|value rest IH]; intros self r' t t'; cbn [parse_lines].
  - intros [= <- <-]. auto.
  - destruct (Socket.content (Socket.line_of value) =? "OK")%string.
    { intros [= <- <-]. auto. }
    destruct (Socket.is_empty (Socket.line_of value)); [apply IH|].
    unfold bind.
    destruct (parse_line env self _ t) as [[e|a] t1] eqn:Hline; [discriminate|].
    intros Hrest. apply parse_line_keeps in Hline as [Hc1 Hv1].
    apply IH in Hrest as [Hc2 Hv2]. auto.
Qed.

Lemma parse_message_one_UNKNOWN (msg : Socket.ControlMessage) (r : Response) t t' :
  _parse_message env msg t = (inr r, t') ->
  (count_UNKNOWN (auth_methods r) <= 1)%nat.
Proof.
  unfold _parse_message. destruct msg as [|first rest]; [discriminate|].
  unfold bind. destruct (raise_if _ _ t) as [[e|[]] t0]; [discriminate|].
  intros H. apply parse_lines_keeps in H as [Hc _]. apply Hc. cbn. lia.
Qed.

(** *** AUTH lines and their METHODS mapping *)

(** C5, at the input on which the code departs from it.  In the line
    AUTH METHODS= the METHODS mapping comes next, so the guard of the AUTH
    branch lets the line pass; [pop_mapping] then finds nothing behind the
    equals sign, and its IndexError leaves [parse_line] and [_parse_message]:
    the line is neither parsed nor refused with ProtocolError. *)
Theorem empty_METHODS_raises_IndexError (t : list Event) :
  Socket.pop (Socket.line_of "AUTH METHODS=")
  = inr ("AUTH", Socket.mkLine "AUTH METHODS=" "METHODS=")
  /\ Socket.is_next_mapping "METHODS" false false
       (Socket.mkLine "AUTH METHODS=" "METHODS=") = true
  /\ (forall self : Response,
        parse_line env self (Socket.line_of "AUTH METHODS=") t
        = (inl (IndexError "no remaining content to parse"), t))
  /\ _parse_message env ["PROTOCOLINFO 1"; "AUTH METHODS="; "OK"] t
     = (inl (IndexError "no remaining content to parse"), t).
Proof. repeat split. Qed.

(** For a line whose leading entry is AUTH: when no METHODS mapping comes
    next, [parse_line] raises ProtocolError, and the whole [_parse_message]
    of a reply that reaches this line (no OK line in front of it, the lines
    in front parsed without error) ends in ProtocolError; when the METHODS
    mapping comes next and [pop_mapping] takes it off, [parse_line] returns
    a response, whatever names the mapping lists, and the loop goes on with
    the lines behind. *)
Theorem auth_line_requires_METHODS
    (value : string) (l1 : Socket.ControlLine)
    (pre post : list string) (t : list Event) :
  Socket.pop (Socket.line_of value) = inr ("AUTH", l1) ->
  (Socket.is_next_mapping "METHODS" false false l1 = false ->
   (forall self : Response,
      exists msg, parse_line env self (Socket.line_of value) t
                  = (inl (ProtocolError msg), t))
   /\ (forall (self0 : Response) t0,
         Forall (fun v => v <> "OK") pre ->
         parse_lines env pre blank t = (inr self0, t0) ->
         exists msg t',
           _parse_message env (pre ++ value :: post)%list t
           = (inl (ProtocolError msg), t')))
  /\ (Socket.is_next_mapping "METHODS" false false l1 = true ->
      forall mapping l2,
        Socket.pop_mapping false false l1 = inr (mapping, l2) ->
        forall self : Response,
          exists self' t',
            parse_line env self (Socket.line_of value) t = (inr self', t')
            /\ parse_lines env (value :: post) self t = parse_lines env post self' t').
Proof.
  intros Hpop. split; intros Hm.
  - split.
    + intros self. rewrite (parse_line_AUTH _ _ _ _ Hpop).
      now apply parse_AUTH_missing.
    + intros self0 t0 Hok Hpre.
      assert (Hloop : exists msg,
                 parse_lines env (pre ++ value :: post)%list blank t
                 = (inl (ProtocolError msg), t0)).
      { rewrite (parse_lines_app pre (value :: post) blank self0 t t0 Hok Hpre).
        rewrite (parse_lines_cons _ _ _ _ _ _ Hpop); [|discriminate].
        unfold bind. rewrite (parse_line_AUTH _ _ _ _ Hpop).
        destruct (parse_AUTH_missing self0 l1 t0 Hm) as (msg & ->). eauto. }
      destruct Hloop as (msg & Hloop).
      unfold _parse_message.
      destruct (pre ++ value :: post)%list as [|first others] eqn:E.
      { destruct pre; discriminate. }
      unfold blank in Hloop. unfold bind.
      destruct (negb (Py.startswith first "PROTOCOLINFO")).
      * rewrite raise_if_true. eauto.
      * rewrite raise_if_false, Hloop. eauto.
  - intros mapping l2 Hmap self.
    rewrite (parse_lines_cons _ _ _ _ _ _ Hpop); [|discriminate].
    unfold bind. rewrite (parse_line_AUTH _ _ _ _ Hpop).
    destruct (parse_AUTH_present self l1 t mapping l2 Hm Hmap)
      as (am & um & t1 & r' & t' & _ & Hr & _).
    rewrite Hr. eauto.
Qed.

(** C3.  For a line whose leading entry is AUTH and whose METHODS mapping
    has the value [names] joined by commas (something stands behind the
    equals sign of METHODS=): the methods other than UNKNOWN
    in [auth_methods] grow by the methods of the recognised names, in order
    (NULL gives NONE, HASHEDPASSWORD gives PASSWORD, COOKIE gives COOKIE);
    [unknown_auth_methods] grows by the other names, verbatim and in order;
    UNKNOWN is among the methods exactly when it was before or some name is
    not recognised, and at most once if at most once before.  Every response
    the parser returns holds UNKNOWN at most once.  METHODS=NULL,FOO,BAR
    gives the methods NONE, UNKNOWN and the unknown names FOO, BAR;
    METHODS=NULL,HASHEDPASSWORD,COOKIE gives NONE, PASSWORD, COOKIE and no
    unknown name. *)
Theorem auth_methods_are_mapped :
  (forall (self : Response) line l1 t,
     Socket.pop line = inr ("AUTH", l1) ->
     Socket.is_next_mapping "METHODS" false false l1 = true ->
     Socket.remainder l1 <> "METHODS=" ->
     exists key value l2 self' t',
       Socket.pop_mapping false false l1 = inr ((key, value), l2)
       /\ parse_line env self line t = (inr self', t')
       /\ filter is_known (auth_methods self')
          = (filter is_known (auth_methods self)
             ++ spec_known_methods (Py.split "," value))%list
       /\ unknown_auth_methods self'
          = (unknown_auth_methods self
             ++ filter spec_unrecognized (Py.split "," value))%list
       /\ ((count_UNKNOWN (auth_methods self) <= 1)%nat ->
           (count_UNKNOWN (auth_methods self') <= 1)%nat)
       /\ (In UNKNOWN (auth_methods self') <->
           In UNKNOWN (auth_methods self)
           \/ exists n, In n (Py.split "," value) /\ spec_unrecognized n = true))
  /\ (forall msg (r : Response) t t',
        _parse_message env msg t = (inr r, t') ->
        (count_UNKNOWN (auth_methods r) <= 1)%nat)
  /\ (forall t,
        fst (_parse_message env
               ["PROTOCOLINFO 1"; "AUTH METHODS=NULL,FOO,BAR"; "OK"] t)
        = inr (mkResponse (Some 1) None None [NONE; UNKNOWN] ["FOO"; "BAR"]))
  /\ (forall t,
        fst (_parse_message env
               ["PROTOCOLINFO 1"; "AUTH METHODS=NULL,HASHEDPASSWORD,COOKIE"; "OK"] t)
        = inr (mkResponse (Some 1) None None [NONE; PASSWORD; COOKIE] [])).
Proof.
  split; [|split; [|split]].
  - intros self line l1 t Hpop Hm Hnames.
    rewrite (parse_line_AUTH _ _ _ _ Hpop).
    destruct (Socket.pop_mapping false false l1) as [e|[[key value] l2]] eqn:Hmap.
    { now destruct (pop_mapping_METHODS_fails l1 e Hm Hmap) as [_ Hrem]. }
    destruct (parse_AUTH_present self l1 t (key, value) l2 Hm Hmap)
      as (am & um & t1 & r' & t' & Hms & Hr & Ha & Hu & _).
    destruct (parse_methods_spec (Py.split "," value)
                (auth_methods self) (unknown_auth_methods self) t)
      as (am0 & um0 & t0 & Hms0 & Hk & Hun & Hc & Hin).
    cbn [snd] in Hms. rewrite Hms in Hms0. injection Hms0 as <- <- <-.
    exists key, value, l2, r', t'. rewrite Ha, Hu. auto 10.
  - intros msg r t t'. apply parse_message_one_UNKNOWN.
  - reflexivity.
  - reflexivity.
Qed.

(** *** The check on the first line *)

Lemma prefix_before_blank (p v r : string) :
  (forall c, In c (list_ascii_of_string p) -> c <> " "%char) ->
  String.prefix p (v ++ String " " r) = true -> String.prefix p v = true.
Proof.
  revert v. induction p as [|c p IH]; intros v Hp; [now destruct v|].
  destruct v as [|d v]; cbn.
  - destruct (Ascii.ascii_dec c " ") as [E|_]; [|discriminate].
    exfalso. apply (Hp c); [now left|exact E].
  - destruct (Ascii.ascii_dec c d); [|discriminate].
    apply IH. intros c' Hc'. apply Hp. now right.
Qed.

(** A line starts with the keyword only if its leading entry does. *)
Lemma startswith_leading_entry (value tok : string) l1 :
  Socket.pop (Socket.line_of value) = inr (tok, l1) ->
  Py.startswith value "PROTOCOLINFO" = true ->
  Py.startswith tok "PROTOCOLINFO" = true.
Proof.
  rewrite pop_outcome. unfold Socket.line_of, Py.startswith.
  cbn [Socket.remainder Socket.content].
  destruct (Socket.is_empty _); [discriminate|].
  destruct (Py.split_once " " value) as [[v r]|] eqn:E.
  - intros [= <- <-]. apply split_once_spec in E. subst value.
    apply prefix_before_blank.
    intros c Hc. cbn in Hc.
    repeat (destruct Hc as [<-|Hc]; [discriminate|]). contradiction.
  - now intros [= <- <-].
Qed.

(** C4, at the input on which the code departs from it.  The leading entry
    of the first line PROTOCOLINFOX 1 is PROTOCOLINFOX, which is not the
    keyword; the line starts with the keyword all the same, so the check on
    the first line lets the reply through to the loop over its lines, and
    the reply is accepted, not refused with ProtocolError. *)
Theorem first_line_check_passes_longer_keyword (t : list Event) :
  Socket.pop (Socket.line_of "PROTOCOLINFOX 1")
  = inr ("PROTOCOLINFOX", Socket.mkLine "PROTOCOLINFOX 1" "1")
  /\ "PROTOCOLINFOX" <> "PROTOCOLINFO"
  /\ Py.startswith "PROTOCOLINFOX 1" "PROTOCOLINFO" = true
  /\ _parse_message env ["PROTOCOLINFOX 1"; "OK"] t
     = parse_lines env ["PROTOCOLINFOX 1"; "OK"] blank t
  /\ exists (r : Response) t',
       _parse_message env ["PROTOCOLINFOX 1"; "OK"] t = (inr r, t').
Proof.
  split; [reflexivity|]. split; [discriminate|]. split; [reflexivity|].
  split; [reflexivity|]. eexists _, _. reflexivity.
Qed.

(** What the check on the first line does refuse.  [_parse_message] raises
    ProtocolError when the first line does not start with PROTOCOLINFO,
    which includes every first line whose leading entry does not start with
    it; when the leading entry is PROTOCOLINFO itself the check passes and
    the lines are parsed. *)
Theorem first_line_check_is_prefix_test
    (first : string) (rest : list string) (t : list Event) :
  (Py.startswith first "PROTOCOLINFO" = false ->
   _parse_message env (first :: rest) t
   = (inl (ProtocolError "Message is not a PROTOCOLINFO response"), t))
  /\ (forall tok l1,
        Socket.pop (Socket.line_of first) = inr (tok, l1) ->
        Py.startswith tok "PROTOCOLINFO" = false ->
        _parse_message env (first :: rest) t
        = (inl (ProtocolError "Message is not a PROTOCOLINFO response"), t))
  /\ (forall l1,
        Socket.pop (Socket.line_of first) = inr ("PROTOCOLINFO", l1) ->
        _parse_message env (first :: rest) t
        = parse_lines env (first :: rest) blank t).
Proof.
  assert (Hfail : Py.startswith first "PROTOCOLINFO" = false ->
                  _parse_message env (first :: rest) t
                  = (inl (ProtocolError "Message is not a PROTOCOLINFO response"), t)).
  { intros H. unfold _parse_message, bind. now rewrite H. }
  split; [exact Hfail|]. split.
  - intros tok l1 Hpop Htok. apply Hfail.
    destruct (Py.startswith first "PROTOCOLINFO") eqn:E; [|reflexivity].
    rewrite (startswith_leading_entry _ _ _ Hpop E) in Htok. discriminate.
  - intros l1 Hpop. unfold _parse_message, bind.
    now rewrite (pop_prefix _ _ _ Hpop).
Qed.

(** *** The protocol version of an accepted reply *)

(** C2, at the input on which the code departs from it: a first line whose
    leading entry only starts with PROTOCOLINFO passes the check on the first
    line, is then skipped as a line of unknown type, and the reply is
    accepted with no protocol version. *)
Theorem longer_keyword_leaves_version_unset (t : list Event) :
  _parse_message env ["PROTOCOLINFOX 1"; "OK"] t
  = (inr (mkResponse None None None [] []),
     (t ++ [Logged DEBUG ("unrecognized PROTOCOLINFO line type 'PROTOCOLINFOX', "
                          ++ "ignoring entry: PROTOCOLINFOX 1")])%list).
Proof. reflexivity. Qed.

(** Where the leading entry of the first line is PROTOCOLINFO itself, an
    accepted reply has a protocol version, a number from zero up; and a reply
    whose header has no version entry or one that is not all digits is
    refused with ProtocolError. *)
Theorem exact_keyword_settles_version
    (first : string) (rest : list string) (l1 : Socket.ControlLine)
    (t : list Event) :
  Socket.pop (Socket.line_of first) = inr ("PROTOCOLINFO", l1) ->
  (forall (r : Response) t',
     _parse_message env (first :: rest) t = (inr r, t') -> settled r)
  /\ (Socket.is_empty l1 = true ->
      exists msg, _parse_message env (first :: rest) t = (inl (ProtocolError msg), t))
  /\ (forall tok l2,
        Socket.pop l1 = inr (tok, l2) -> Py.isdigit tok = false ->
        exists msg, _parse_message env (first :: rest) t
                    = (inl (ProtocolError msg), t)).
Proof.
  intros Hpop. rewrite (parse_message_header _ _ _ _ Hpop).
  split; [|split].
  - intros r t'. unfold bind.
    destruct (parse_PROTOCOLINFO blank l1 t) as [[e|a] t1] eqn:Hh; [discriminate|].
    apply parse_PROTOCOLINFO_keeps in Hh as (_ & tok & Hd & Hv).
    intros Hrest. apply parse_lines_keeps in Hrest as [_ Hs]. apply Hs.
    exists (Py.int tok). split; [exact Hv|now apply int_nonneg].
  - intros He. unfold parse_PROTOCOLINFO, bind. rewrite He, raise_if_true. eauto.
  - intros tok l2 Htok Hd. unfold bind at 1. unfold parse_PROTOCOLINFO.
    unfold bind at 1. rewrite (pop_nonempty _ _ _ Htok), raise_if_false.
    unfold bind at 1. unfold lift_result. rewrite Htok.
    unfold bind at 1. rewrite Hd. cbn [negb]. rewrite raise_if_true. eauto.
Qed.

End Parser.

(** ** Discovery through a control port *)

Section Discovery.

Context {TorVersion : Type} (env : Env TorVersion).

Local Abbreviation Response := (ProtocolInfoResponse TorVersion).

Lemma parse_event_not_port_lookup (e : Event) : parse_event e -> not_port_lookup e.
Proof. intros H port ->. exact H. Qed.

(** The reply read after connecting and sending one command is the first
    one the peer had in store. *)
Lemma first_reply (s0 s1 s2 s3 : Socket.ControlSocket) command m :
  Socket.connect s0 = (inr tt, s1) ->
  Socket.send command s1 = (inr tt, s2) ->
  Socket.recv s2 = (inr m, s3) ->
  hd_error (Socket.replies (Socket.peer s0)) = Some (Socket.Reply m).
Proof.
  unfold Socket.connect, Socket.send, Socket.recv.
  destruct (Socket.connect_fault (Socket.peer s0)); [discriminate|].
  intros [= <-]. cbn [Socket.is_alive Socket.peer Socket.sent negb].
  destruct (Socket.send_faults (Socket.peer s0)) as [|[msg|] rest];
    try discriminate; intros [= <-];
    cbn [Socket.is_alive Socket.peer Socket.sent Socket.replies negb];
    destruct (Socket.replies (Socket.peer s0)) as [|[m'|msg|msg] rest'];
    try discriminate; intros [= <- _]; reflexivity.
Qed.

(** [get_protocolinfo_by_port], step by step. *)
Lemma by_port_outcome (control_addr : string) (control_port : Z)
    (get_socket : bool) (events : list Event) :
  get_protocolinfo_by_port env control_addr control_port get_socket events
  = match Socket.connect (ControlPort env control_addr control_port) with
    | (inl e, s1) => (inl e, mkWorld (closed s1) events)
    | (inr _, s1) =>
    match Socket.send "PROTOCOLINFO 1" s1 with
    | (inl e, s2) => (inl e, mkWorld (closed s2) events)
    | (inr _, s2) =>
    match Socket.recv s2 with
    | (inl e, s3) => (inl e, mkWorld (closed s3) events)
    | (inr m, s3) =>
    match convert env m events with
    | (inl e, t0) =>
        (inl e, mkWorld (if is_ControllerError e then closed s3 else s3) t0)
    | (inr r0, t0) =>
    match (if (control_addr =? "127.0.0.1")%string
           then _expand_cookie_path env r0 (get_pid_by_port control_port) t0
           else (inr r0, t0)) with
    | (inl e, t1) =>
        (inl e, mkWorld (if is_ControllerError e then closed s3 else s3) t1)
    | (inr r, t1) =>
        if get_socket then (inr (r, Some s3), mkWorld s3 t1)
        else (inr (r, None), mkWorld (closed s3) t1)
    end end end end end.
Proof.
  unfold get_protocolinfo_by_port, try_except, bind, on_socket, on_trace.
  cbn [control_socket trace].
  destruct (Socket.connect _) as [[e|[]] s1] eqn:Hc.
  { apply connect_raises in Hc. now rewrite Hc. }
  cbn [control_socket trace].
  destruct (Socket.send _ s1) as [[e|[]] s2] eqn:Hs.
  { apply send_raises in Hs. now rewrite Hs. }
  cbn [control_socket trace].
  destruct (Socket.recv s2) as [[e|m] s3] eqn:Hr.
  { apply recv_raises in Hr. now rewrite Hr. }
  cbn [control_socket trace].
  destruct (convert env m events) as [[e|r0] t0].
  { now destruct (is_ControllerError e). }
  destruct (control_addr =? "127.0.0.1")%string; cbn [control_socket trace].
  - destruct (_expand_cookie_path env r0 _ t0) as [[e|r] t1].
    + now destruct (is_ControllerError e).
    + unfold finish, bind, current_socket, on_socket, ret.
      now destruct get_socket.
  - unfold finish, bind, current_socket, on_socket, ret.
    now destruct get_socket.
Qed.

(** C9.  [get_protocolinfo_by_port] with an address other than 127.0.0.1
    never looks a pid up by port: the events it adds are those of parsing
    the reply, and the response it returns is exactly what parsing the
    received reply produced.  With the address 127.0.0.1 the response it
    returns is what [_expand_cookie_path] with the port lookup made of the
    parsed reply. *)
Theorem port_lookup_only_for_localhost
    (control_addr : string) (control_port : Z) (get_socket : bool)
    (events : list Event) :
  let out := get_protocolinfo_by_port env control_addr control_port get_socket events in
  let replies := Socket.replies (port_peer env control_addr control_port) in
  (control_addr <> "127.0.0.1" ->
   (exists evs, trace (snd out) = (events ++ evs)%list /\ Forall not_port_lookup evs)
   /\ (forall r sock, fst out = inr (r, sock) ->
       exists m, hd_error replies = Some (Socket.Reply m)
                 /\ convert env m events = (inr r, trace (snd out))))
  /\ (control_addr = "127.0.0.1" ->
      forall r sock, fst out = inr (r, sock) ->
      exists m r0 t0,
        hd_error replies = Some (Socket.Reply m)
        /\ convert env m events = (inr r0, t0)
        /\ _expand_cookie_path env r0 (get_pid_by_port control_port) t0
           = (inr r, trace (snd out))).
Proof.
  intros out replies. subst out replies. rewrite by_port_outcome.
  set (s0 := ControlPort env control_addr control_port).
  change (port_peer env control_addr control_port) with (Socket.peer s0).
  assert (Hnil : exists evs, events = (events ++ evs)%list /\ Forall not_port_lookup evs).
  { exists []. now rewrite app_nil_r. }
  destruct (Socket.connect s0) as [[e|[]] s1] eqn:Hc.
  { cbn. split; intros _; [split|]; [exact Hnil| |]; intros; discriminate. }
  destruct (Socket.send "PROTOCOLINFO 1" s1) as [[e|[]] s2] eqn:Hs.
  { cbn. split; intros _; [split|]; [exact Hnil| |]; intros; discriminate. }
  destruct (Socket.recv s2) as [[e|m] s3] eqn:Hr.
  { cbn. split; intros _; [split|]; [exact Hnil| |]; intros; discriminate. }
  pose proof (first_reply _ _ _ _ _ _ Hc Hs Hr) as Hm.
  destruct (convert env m events) as [[e|r0] t0] eqn:Hconv.
  { destruct (traced_run _ _ _ _ (parse_message_traced env m) Hconv)
      as (evs & -> & Hevs & _).
    cbn [fst snd trace].
    split; intros _; [split|]; [| |]; try (intros; discriminate).
    exists evs. split; [reflexivity|].
    eapply Forall_impl; [apply parse_event_not_port_lookup|exact Hevs]. }
  destruct (String.eqb_spec control_addr "127.0.0.1") as [Ha|Ha].
  - split; [intros N; contradiction|]. intros _ r sock.
    destruct (_expand_cookie_path env r0 (get_pid_by_port control_port) t0)
      as [[e|r1] t1] eqn:He; [discriminate|].
    destruct get_socket; cbn [fst snd trace]; intros [= <- _];
      exists m, r0, t0; auto.
  - split; [|intros N; contradiction]. intros _.
    destruct (traced_run _ _ _ _ (parse_message_traced env m) Hconv)
      as (evs & Ht0 & Hevs & _).
    split.
    + exists evs. destruct get_socket; cbn [fst snd trace]; (split; [exact Ht0|]);
        (eapply Forall_impl; [apply parse_event_not_port_lookup|exact Hevs]).
    + intros r sock. destruct get_socket; cbn [fst snd trace]; intros [= <- _];
        exists m; auto.
Qed.

End Discovery.

(** ** The properties at work in the concrete world *)

Lemma auth_line_requires_METHODS_witness :
  (exists msg t',
     _parse_message Sample.env ["PROTOCOLINFO 1"; "AUTH COOKIEFILE=x"; "OK"] []
     = (inl (ProtocolError msg), t'))
  /\ (exists self' t',
        parse_line Sample.env blank (Socket.line_of "AUTH METHODS=COOKIE,SAFECOOKIE") []
        = (inr self', t')
        /\ parse_lines Sample.env ["AUTH METHODS=COOKIE,SAFECOOKIE"; "OK"] blank []
           = parse_lines Sample.env ["OK"] self' t').
Proof.
  split.
  - apply (proj2 (proj1 (auth_line_requires_METHODS Sample.env
                           "AUTH COOKIEFILE=x"
                           (Socket.mkLine "AUTH COOKIEFILE=x" "COOKIEFILE=x")
                           ["PROTOCOLINFO 1"] ["OK"] [] eq_refl)
                        eq_refl)
                 (mkResponse (Some 1) None None [] []) []).
    + repeat constructor. discriminate.
    + reflexivity.
  - apply (proj2 (auth_line_requires_METHODS Sample.env
                    "AUTH METHODS=COOKIE,SAFECOOKIE"
                    (Socket.mkLine "AUTH METHODS=COOKIE,SAFECOOKIE"
                                   "METHODS=COOKIE,SAFECOOKIE")
                    [] ["OK"] [] eq_refl)
                 eq_refl ("METHODS", "COOKIE,SAFECOOKIE")
                 (Socket.mkLine "AUTH METHODS=COOKIE,SAFECOOKIE" EmptyString)
                 eq_refl blank).
Defined.

Lemma auth_methods_are_mapped_witness :
  exists key value l2 self' t',
    Socket.pop_mapping false false
      (Socket.mkLine "AUTH METHODS=NULL,FOO,BAR" "METHODS=NULL,FOO,BAR")
    = inr ((key, value), l2)
    /\ parse_line Sample.env blank (Socket.line_of "AUTH METHODS=NULL,FOO,BAR") []
       = (inr self', t')
    /\ unknown_auth_methods self'
       = (unknown_auth_methods (@blank string)
          ++ filter spec_unrecognized (Py.split "," value))%list.
Proof.
  destruct (proj1 (auth_methods_are_mapped Sample.env) blank
              (Socket.line_of "AUTH METHODS=NULL,FOO,BAR")
              (Socket.mkLine "AUTH METHODS=NULL,FOO,BAR" "METHODS=NULL,FOO,BAR")
              [] eq_refl eq_refl ltac:(discriminate))
    as (key & value & l2 & self' & t' & Hmap & Hrun & _ & Hun & _).
  exists key, value, l2, self', t'. auto.
Defined.

Lemma first_line_check_is_prefix_test_witness :
  _parse_message Sample.env ["AUTH METHODS=NULL"; "OK"] []
  = (inl (ProtocolError "Message is not a PROTOCOLINFO response"), [])
  /\ _parse_message Sample.env ["PROTOCOLINFO 1"; "OK"] []
     = parse_lines Sample.env ["PROTOCOLINFO 1"; "OK"] blank [].
Proof.
  split.
  - apply (proj1 (proj2 (first_line_check_is_prefix_test Sample.env
                           "AUTH METHODS=NULL" ["OK"] []))
                 "AUTH" (Socket.mkLine "AUTH METHODS=NULL" "METHODS=NULL"));
      reflexivity.
  - apply (proj2 (proj2 (first_line_check_is_prefix_test Sample.env
                           "PROTOCOLINFO 1" ["OK"] []))
                 (Socket.mkLine "PROTOCOLINFO 1" "1")).
    reflexivity.
Defined.

Lemma unexpected_version_is_tolerated_witness :
  parse_line Sample.env blank (Socket.line_of "PROTOCOLINFO 2") []
  = (inr (mkResponse (Some 2) None None [] []), [version_warning 2])
  /\ exists out_v out_1 evs,
       _parse_message Sample.env ["PROTOCOLINFO 2"; "AUTH METHODS=NULL"; "OK"] []
       = (out_v, version_warning 2 :: evs)
       /\ _parse_message Sample.env ["PROTOCOLINFO 1"; "AUTH METHODS=NULL"; "OK"] []
          = (out_1, evs)
       /\ same_outcome out_v out_1.
Proof.
  destruct (unexpected_version_is_tolerated Sample.env "PROTOCOLINFO 2"
              (Socket.mkLine "PROTOCOLINFO 2" "2") "2"
              (Socket.mkLine "PROTOCOLINFO 2" EmptyString)
              ["AUTH METHODS=NULL"; "OK"] [] eq_refl eq_refl eq_refl
              ltac:(vm_compute; discriminate))
    as [Hline Hrest].
  split; [exact (Hline blank) | exact Hrest].
Defined.

Lemma port_lookup_only_for_localhost_witness :
  let out := get_protocolinfo_by_port Sample.env "10.0.0.7" 9051 false [] in
  (exists evs, trace (snd out) = ([] ++ evs)%list /\ Forall not_port_lookup evs)
  /\ (forall r sock, fst out = inr (r, sock) ->
      exists m,
        hd_error (Socket.replies (port_peer Sample.env "10.0.0.7" 9051))
        = Some (Socket.Reply m)
        /\ convert Sample.env m [] = (inr r, trace (snd out))).
Proof.
  apply (proj1 (port_lookup_only_for_localhost Sample.env "10.0.0.7" 9051 false [])).
  discriminate.
Defined.

(** ** Replies and handshakes, end to end *)

Example scenario_cookie_reply :
  _parse_message Sample.env
    [ "PROTOCOLINFO 1";
      "AUTH METHODS=COOKIE COOKIEFILE=" ++ Sample.quoted "/tmp/x";
      "VERSION Tor=" ++ Sample.quoted "0.2.1.30";
      "OK" ] []
  = (inr (mkResponse (Some 1) (Some "0.2.1.30") (Some "/tmp/x") [COOKIE] []), []).
Proof. reflexivity. Qed.

Example scenario_discovery_on_localhost :
  fst (get_protocolinfo_by_port Sample.env "127.0.0.1" 9051 false [])
  = inr (mkResponse (Some 1) (Some "0.2.1.30")
                    (Some "/var/lib/tor/control_auth_cookie") [COOKIE] [],
         None).
Proof. reflexivity. Qed.

Example scenario_discovery_elsewhere :
  fst (get_protocolinfo_by_port Sample.env "10.0.0.7" 9051 false [])
  = inr (mkResponse (Some 1) (Some "0.2.1.30")
                    (Some "control_auth_cookie") [COOKIE] [],
         None).
Proof. reflexivity. Qed.

Example scenario_password_with_quote :
  Socket.sent (control_socket
                 (snd (authenticate_password
                         (String "a" (String Py.dquote "b"))
                         (Sample.answering ["OK"]))))
  = [ "AUTHENTICATE "
      ++ String Py.dquote
           (String "a" (String Py.backslash (String Py.dquote "b")))
      ++ String Py.dquote EmptyString ]
  /\ fst (authenticate_password (String "a" (String Py.dquote "b"))
                                (Sample.answering ["OK"])) = inr tt.
Proof. split; reflexivity. Qed.

Example scenario_short_cookie :
  authenticate_cookie Sample.env "/home/atagar/.bash_history"
    (Sample.answering ["OK"])
  = (inl (ValueError (AUTH_COOKIE_WRONG_SIZE "/home/atagar/.bash_history" 16)),
     mkWorld (control_socket (Sample.answering ["OK"]))
             [PathExists "/home/atagar/.bash_history";
              GetSize "/home/atagar/.bash_history"]).
Proof. reflexivity. Qed.

(** * Further properties of the module *)

(** ** The handshakes as exchanges on the socket *)

Lemma send_keeps command s r s' :
  Socket.send command s = (r, s') ->
  Socket.is_alive s' = Socket.is_alive s
  /\ (Socket.sent s' = Socket.sent s
      \/ Socket.sent s' = (Socket.sent s ++ [command])%list).
Proof.
  unfold Socket.send. destruct (Socket.is_alive s) eqn:Ha; cbn [negb].
  - destruct (Socket.send_faults (Socket.peer s)) as [|[msg|] rest];
      intros [= <- <-]; cbn; auto.
  - intros [= <- <-]. auto.
Qed.

Lemma recv_keeps s r s' :
  Socket.recv s = (r, s') ->
  Socket.is_alive s' = Socket.is_alive s /\ Socket.sent s' = Socket.sent s.
Proof.
  unfold Socket.recv. destruct (Socket.is_alive s) eqn:Ha; cbn [negb].
  - destruct (Socket.replies (Socket.peer s)) as [|[m|msg|msg] rest];
      intros [= <- <-]; cbn; auto.
  - intros [= <- <-]. auto.
Qed.

(** What a round trip can do to the world: the socket stays open or closed
    as it was, at most the one command is added to what was sent, and the
    trace is not touched; what it can raise is a controller error or the
    ValueError of a refusal. *)
Lemma round_trip_keeps command w r w' :
  round_trip_of command w = (r, w') ->
  Socket.is_alive (control_socket w') = Socket.is_alive (control_socket w)
  /\ (Socket.sent (control_socket w') = Socket.sent (control_socket w)
      \/ Socket.sent (control_socket w')
         = (Socket.sent (control_socket w) ++ [command])%list)
  /\ trace w' = trace w
  /\ (forall e, r = inl e ->
      (exists msg, e = ValueError msg) \/ is_ControllerError e = true).
Proof.
  unfold round_trip_of, bind, on_socket.
  destruct (Socket.send command (control_socket w)) as [[e1|[]] s1] eqn:E1.
  - intros [= <- <-]. cbn [control_socket trace].
    destruct (send_keeps _ _ _ _ E1) as [Ha Hs]. apply send_raises in E1.
    repeat split; auto. intros e [= <-]. auto.
  - cbn [control_socket trace].
    destruct (send_keeps _ _ _ _ E1) as [Ha Hs].
    destruct (Socket.recv s1) as [[e2|m] s2] eqn:E2;
      destruct (recv_keeps _ _ _ E2) as [Ha2 Hs2].
    + intros [= <- <-]. cbn [control_socket trace]. apply recv_raises in E2.
      rewrite Ha2, Hs2. repeat split; auto. intros e [= <-]. auto.
    + cbn [control_socket trace].
      destruct (negb (Socket.str m =? "OK")%string);
        intros [= <- <-]; cbn [control_socket trace]; rewrite Ha2, Hs2;
        repeat split; auto; intros e [= <-]; eauto.
Qed.

Section HandshakeFrames.

Context {TorVersion : Type} (env : Env TorVersion).

(** What the cookie handshake leaves behind, in each of its cases. *)
Lemma authenticate_cookie_cases cookie_path w :
  (exists e t', authenticate_cookie env cookie_path w
                = (inl (OSError e), mkWorld (control_socket w) t'))
  \/ (exists e t', authenticate_cookie env cookie_path w
                   = (inl (ValueError e), mkWorld (control_socket w) t'))
  \/ (exists contents t',
        authenticate_cookie env cookie_path w
        = round_trip_of ("AUTHENTICATE " ++ Py.b2a_hex contents)
            (mkWorld (control_socket w) t')).
Proof.
  destruct (fs env cookie_path) as [f|] eqn:Hf.
  - destruct (Z.eq_dec (st_size f) 32) as [Hs|Hs].
    + rewrite (authenticate_cookie_valid env cookie_path f w Hf Hs).
      destruct (data f); eauto.
    + rewrite (authenticate_cookie_wrong_size env cookie_path f w Hf Hs). eauto.
  - rewrite (authenticate_cookie_missing env cookie_path w Hf). eauto.
Qed.

(** X1.  Each handshake is at most one command on the wire and never opens or
    closes the socket: [is_alive] is what it was, and what was sent grew by
    nothing or by one command that starts with AUTHENTICATE.  The handshakes
    without a cookie leave no event in the trace. *)
Theorem handshake_is_one_exchange
    (password cookie_path : string) (w : World) :
  Forall (fun w' : World =>
            Socket.is_alive (control_socket w') = Socket.is_alive (control_socket w)
            /\ exists commands,
                 Socket.sent (control_socket w')
                 = (Socket.sent (control_socket w) ++ commands)%list
                 /\ (List.length commands <= 1)%nat
                 /\ Forall (fun c => Py.startswith c "AUTHENTICATE" = true) commands)
         [ snd (authenticate_none w);
           snd (authenticate_password password w);
           snd (authenticate_cookie env cookie_path w) ]
  /\ trace (snd (authenticate_none w)) = trace w
  /\ trace (snd (authenticate_password password w)) = trace w.
Proof.
  assert (Hrt : forall command w0 r w',
            Py.startswith command "AUTHENTICATE" = true ->
            round_trip_of command w0 = (r, w') ->
            Socket.is_alive (control_socket w') = Socket.is_alive (control_socket w0)
            /\ exists commands,
                 Socket.sent (control_socket w')
                 = (Socket.sent (control_socket w0) ++ commands)%list
                 /\ (List.length commands <= 1)%nat
                 /\ Forall (fun c => Py.startswith c "AUTHENTICATE" = true) commands).
  { intros command w0 r w' Hc Hrun.
    destruct (round_trip_keeps _ _ _ _ Hrun) as (Ha & [Hs|Hs] & _).
    - split; [exact Ha|]. exists []. rewrite app_nil_r. cbn. auto.
    - split; [exact Ha|]. exists [command]. cbn. auto. }
  assert (Hsame : Socket.is_alive (control_socket w) = Socket.is_alive (control_socket w)
            /\ exists commands,
                 Socket.sent (control_socket w)
                 = (Socket.sent (control_socket w) ++ commands)%list
                 /\ (List.length commands <= 1)%nat
                 /\ Forall (fun c => Py.startswith c "AUTHENTICATE" = true) commands).
  { split; [reflexivity|]. exists []. rewrite app_nil_r. cbn. auto. }
  split; [|split].
  - apply Forall_cons; [|apply Forall_cons; [|apply Forall_cons; [|apply Forall_nil]]].
    + rewrite authenticate_none_round_trip.
      destruct (round_trip_of "AUTHENTICATE" w) as [r w'] eqn:E.
      exact (Hrt "AUTHENTICATE" _ _ _ eq_refl E).
    + rewrite authenticate_password_round_trip.
      match goal with |- context [round_trip_of ?c w] =>
        destruct (round_trip_of c w) as [r w'] eqn:E;
        exact (Hrt c _ _ _ eq_refl E) end.
    + destruct (authenticate_cookie_cases cookie_path w)
        as [(e & t' & ->)|[(e & t' & ->)|(contents & t' & ->)]];
        try exact Hsame.
      match goal with |- context [round_trip_of ?c ?w0] =>
        destruct (round_trip_of c w0) as [r w'] eqn:E;
        exact (Hrt c _ _ _ eq_refl E) end.
  - rewrite authenticate_none_round_trip. apply round_trip_trace.
  - rewrite authenticate_password_round_trip. apply round_trip_trace.
Qed.

(** X2.  What the handshakes raise: a refusal as ValueError, a ProtocolError or a
    SocketError, and for the cookie handshake an OSError as well; an IOError
    of the cookie file never reaches the caller as such. *)
Theorem handshake_exceptions
    (password cookie_path : string) (w w' : World) (e : Exn) :
  (authenticate_none w = (inl e, w') ->
   (exists msg, e = ValueError msg) \/ is_ControllerError e = true)
  /\ (authenticate_password password w = (inl e, w') ->
      (exists msg, e = ValueError msg) \/ is_ControllerError e = true)
  /\ (authenticate_cookie env cookie_path w = (inl e, w') ->
      (exists msg, e = ValueError msg) \/ is_ControllerError e = true
      \/ exists msg, e = OSError msg).
Proof.
  split; [|split].
  - rewrite authenticate_none_round_trip. intros H.
    now apply (round_trip_keeps _ _ _ _ H).
  - rewrite authenticate_password_round_trip. intros H.
    now apply (round_trip_keeps _ _ _ _ H).
  - destruct (authenticate_cookie_cases cookie_path w)
      as [(m & t' & ->)|[(m & t' & ->)|(contents & t' & ->)]].
    + intros [= <- _]. eauto.
    + intros [= <- _]. eauto.
    + intros H. destruct (round_trip_keeps _ _ _ _ H) as (_ & _ & _ & He).
      destruct (He e eq_refl); auto.
Qed.

(** X3.  A cookie file of 32 bytes that cannot be read: the IOError of reading it
    comes out as an OSError with the same message, after the two checks and
    the attempt to read, and nothing is sent. *)
Theorem unreadable_cookie_is_OSError (cookie_path : string) (f : File) (w : World) :
  fs env cookie_path = Some f -> st_size f = 32 -> data f = None ->
  exists msg,
    authenticate_cookie env cookie_path w
    = (inl (OSError msg),
       mkWorld (control_socket w)
               (trace w ++ [PathExists cookie_path; GetSize cookie_path;
                            FileRead cookie_path]))
    /\ read_file env cookie_path (trace w) = (inl (IOError msg),
                                              (trace w ++ [FileRead cookie_path])%list).
Proof.
  intros Hf Hs Hd.
  rewrite (authenticate_cookie_valid env cookie_path f w Hf Hs), Hd.
  eexists. split; [reflexivity|].
  unfold read_file, bind, emit. now rewrite Hf, Hd.
Qed.

End HandshakeFrames.

(** ** What goes on the wire as the credential *)

Lemma escape_quotes_head (s : string) :
  match Py.escape_quotes s with
  | String d _ => Ascii.eqb d Py.dquote = false
  | EmptyString => s = EmptyString
  end.
Proof.
  destruct s as [|c s]; cbn [Py.escape_quotes]; [reflexivity|].
  destruct (Ascii.eqb c Py.dquote) eqn:E; [reflexivity|exact E].
Qed.

Lemma escape_quotes_follow (s : string) : forall behind,
  quotes_follow_backslash behind (Py.escape_quotes s) = true.
Proof.
  induction s as [|c s IH]; intros behind; cbn [Py.escape_quotes]; [reflexivity|].
  destruct (Ascii.eqb c Py.dquote) eqn:E.
  - cbn [quotes_follow_backslash].
    change (Ascii.eqb Py.backslash Py.dquote) with false. cbv iota.
    change (Ascii.eqb Py.dquote Py.dquote) with true. cbv iota.
    change (Ascii.eqb Py.backslash Py.backslash) with true.
    cbn [andb]. apply IH.
  - cbn [quotes_follow_backslash]. rewrite E. apply IH.
Qed.

Lemma escape_quotes_undone (s : string) :
  drop_quote_escapes (Py.escape_quotes s) = s.
Proof.
  induction s as [|c s IH]; cbn [Py.escape_quotes]; [reflexivity|].
  destruct (Ascii.eqb_spec c Py.dquote) as [->|N].
  - cbn [drop_quote_escapes].
    change (Ascii.eqb Py.backslash Py.backslash) with true.
    change (Ascii.eqb Py.dquote Py.dquote) with true.
    cbn [andb]. now rewrite IH.
  - cbn [drop_quote_escapes].
    pose proof (escape_quotes_head s) as Hh.
    destruct (Py.escape_quotes s) as [|d t] eqn:Et.
    + now subst s.
    + rewrite Hh, andb_false_r. now rewrite IH.
Qed.

(** X4.  The password handshake puts at most one command on the wire, the
    password between double quotes with a backslash in front of each of its
    own double quotes; taking those backslashes out again gives the password
    back, so two passwords are never sent as the same command. *)
Theorem password_is_sent_quoted (password : string) (w : World) :
  let argument := Py.escape_quotes password in
  let command := "AUTHENTICATE " ++ String Py.dquote argument
                 ++ String Py.dquote EmptyString in
  let after := control_socket (snd (authenticate_password password w)) in
  (Socket.sent after = Socket.sent (control_socket w)
   \/ Socket.sent after = (Socket.sent (control_socket w) ++ [command])%list)
  /\ quotes_follow_backslash false argument = true
  /\ drop_quote_escapes argument = password
  /\ (forall other, Py.escape_quotes other = argument -> other = password).
Proof.
  cbv zeta. split; [|split; [|split]].
  - rewrite authenticate_password_round_trip.
    match goal with |- context [round_trip_of ?c w] =>
      destruct (round_trip_of c w) as [r w'] eqn:E end.
    now apply (round_trip_keeps _ _ _ _ E).
  - apply escape_quotes_follow.
  - apply escape_quotes_undone.
  - intros other H. rewrite <- (escape_quotes_undone other), H.
    apply escape_quotes_undone.
Qed.

Lemma hex_of_byte (c : ascii) :
  let n := N_of_ascii c in
  is_lower_hex (Py.hex_digit (n / 16)) = true
  /\ is_lower_hex (Py.hex_digit (n mod 16)) = true
  /\ ascii_of_N (16 * hex_value (Py.hex_digit (n / 16))
                 + hex_value (Py.hex_digit (n mod 16))) = c.
Proof.
  destruct c as [[] [] [] [] [] [] [] []]; vm_compute; repeat split.
Qed.

Lemma b2a_hex_facts (s : string) :
  String.length (Py.b2a_hex s) = (2 * String.length s)%nat
  /\ all_lower_hex (Py.b2a_hex s) = true
  /\ a2b_hex (Py.b2a_hex s) = s.
Proof.
  induction s as [|c s (IHl & IHh & IHr)]; [repeat split|].
  destruct (hex_of_byte c) as (Hhi & Hlo & Hback).
  cbn [Py.b2a_hex String.length all_lower_hex a2b_hex].
  rewrite IHl, IHh, IHr, Hhi, Hlo, Hback. repeat split. lia.
Qed.

(** X5.  The cookie handshake on a readable cookie file of 32 bytes puts at most
    one command on the wire: AUTHENTICATE and the contents of the file as
    lower-case hexadecimal digits, two for each byte, from which the contents
    can be read back. *)
Theorem cookie_is_sent_as_hex
    {TorVersion : Type} (env : Env TorVersion)
    (cookie_path : string) (f : File) (contents : string) (w : World) :
  fs env cookie_path = Some f -> st_size f = 32 -> data f = Some contents ->
  exists argument,
    let after := control_socket (snd (authenticate_cookie env cookie_path w)) in
    (Socket.sent after = Socket.sent (control_socket w)
     \/ Socket.sent after
        = (Socket.sent (control_socket w)
           ++ [("AUTHENTICATE " ++ argument)%string])%list)
    /\ String.length argument = (2 * String.length contents)%nat
    /\ all_lower_hex argument = true
    /\ a2b_hex argument = contents.
Proof.
  intros Hf Hs Hd. exists (Py.b2a_hex contents). cbv zeta.
  split; [|apply b2a_hex_facts].
  rewrite (authenticate_cookie_valid env cookie_path f w Hf Hs), Hd.
  match goal with |- context [round_trip_of ?c ?w0] =>
    destruct (round_trip_of c w0) as [r w'] eqn:E end.
  now apply (round_trip_keeps _ _ _ _ E).
Qed.

(** ** The resolver, once more *)

Section ResolverFrames.

Context {TorVersion : Type} (env : Env TorVersion).

Local Abbreviation Response := (ProtocolInfoResponse TorVersion).

(** X6.  [_expand_cookie_path] changes nothing but the cookie path, and it neither
    removes a cookie path nor makes one up. *)
Theorem expand_cookie_path_touches_only_the_path
    (r : Response) (q : PidQuery) (t : list Event) :
  exists p t',
    _expand_cookie_path env r q t = (inr (set_cookie_path r p), t')
    /\ (p = None <-> cookie_path r = None).
Proof.
  rewrite expand_cookie_path_outcome.
  destruct (cookie_path r) as [path|] eqn:Hp.
  2:{ exists None, t. rewrite <- Hp, set_cookie_path_same. tauto. }
  assert (Hsame : set_cookie_path r (Some path) = r)
    by (rewrite <- Hp; apply set_cookie_path_same).
  assert (Hiff : forall x : string, @None string = Some path <-> Some x = None)
    by (intros x; split; discriminate).
  assert (Hiff' : forall x : string, Some x = None <-> Some path = None)
    by (intros x; split; discriminate).
  repeat match goal with
         | |- context [match ?x with _ => _ end] => destruct x
         | |- context [if ?c then _ else _] => destruct c
         end;
    try (eexists (Some path), _; rewrite Hsame; split; [reflexivity|apply Hiff']);
    eexists (Some _), _; (split; [reflexivity|apply Hiff']).
Qed.

(** X7.  The lookups of [_expand_cookie_path] and what it logs: the events it adds
    start with the pid lookup it was given, if there are any; a working
    directory is looked up only for a pid that lookup found; and the only
    records it logs are the two debug records of a failed lookup, which come
    with an unchanged response. *)
Theorem expand_cookie_path_lookups
    (r : Response) (q : PidQuery) (t : list Event) :
  exists r' evs,
    _expand_cookie_path env r q t = (inr r', (t ++ evs)%list)
    /\ (evs = [] \/ hd_error evs = Some (PidLookup q))
    /\ Forall (fun e =>
                 e = PidLookup q
                 \/ (exists pid, e = CwdLookup pid
                                 /\ pid_resolver env q = Some pid /\ pid <> 0)
                 \/ ((e = unable q "pid lookup failed"
                      \/ e = unable q "cwd lookup failed") /\ r' = r))
              evs.
Proof.
  rewrite expand_cookie_path_outcome.
  assert (Hnone : exists r' evs,
             (@inr Exn Response r, t) = (inr r', (t ++ evs)%list)
             /\ (evs = [] \/ hd_error evs = Some (PidLookup q))
             /\ Forall (fun e =>
                          e = PidLookup q
                          \/ (exists pid, e = CwdLookup pid
                                          /\ pid_resolver env q = Some pid /\ pid <> 0)
                          \/ ((e = unable q "pid lookup failed"
                               \/ e = unable q "cwd lookup failed") /\ r' = r))
                       evs).
  { exists r, []. rewrite app_nil_r. auto. }
  destruct (cookie_path r) as [path|]; [|exact Hnone].
  destruct (negb (path =? EmptyString)%string && is_relative_path env path);
    [|exact Hnone].
  destruct (pid_resolver env q) as [pid|] eqn:Hpid.
  2:{ eexists r, _. split; [reflexivity|]. split; [now right|].
      apply Forall_cons; [now left|].
      apply Forall_cons; [right; right; auto|]. constructor. }
  destruct (Z.eqb_spec pid 0) as [Hz|Hz].
  { eexists r, _. split; [reflexivity|]. split; [now right|].
    apply Forall_cons; [now left|].
    apply Forall_cons; [right; right; auto|]. constructor. }
  assert (Hcwd : exists pid0, CwdLookup pid = CwdLookup pid0
                              /\ Some pid = Some pid0 /\ pid0 <> 0) by eauto.
  destruct (get_cwd env pid) as [cwd|].
  2:{ eexists r, _. split; [reflexivity|]. split; [now right|].
      apply Forall_cons; [now left|].
      apply Forall_cons; [right; left; exact Hcwd|].
      apply Forall_cons; [right; right; auto|]. constructor. }
  destruct (cwd =? EmptyString)%string.
  - eexists r, _. split; [reflexivity|]. split; [now right|].
    apply Forall_cons; [now left|].
    apply Forall_cons; [right; left; exact Hcwd|].
    apply Forall_cons; [right; right; auto|]. constructor.
  - eexists _, _. split; [reflexivity|]. split; [now right|].
    apply Forall_cons; [now left|].
    apply Forall_cons; [right; left; exact Hcwd|]. constructor.
Qed.

End ResolverFrames.

(** ** The reply parser, line by line *)

Ltac tor_step :=
  first
    [ apply traced_ret
    | apply traced_raise
    | apply traced_raise_if
    | apply traced_lift_result
    | apply traced_emit; first [exact I | reflexivity]
    | apply traced_bind; [|intros]
    | apply traced_try_except; [|intros]
    | match goal with
      | |- traced _ (match ?x with _ => _ end) => destruct x
      | |- traced _ (if ?c then _ else _) => destruct c
      | |- traced _ (let (_, _) := ?x in _) => destruct x
      end ].

Section ParserLines.

Context {TorVersion : Type} (env : Env TorVersion).

Local Abbreviation Response := (ProtocolInfoResponse TorVersion).

(** *** Where the loop stops and what it steps over *)

Lemma parse_lines_stop_at_OK pre : forall post (self : Response) t,
  parse_lines env (pre ++ "OK" :: post) self t = parse_lines env pre self t.
Proof.
  induction pre as [|value pre IH]; intros post self t; cbn [app parse_lines].
  - reflexivity.
  - destruct (Socket.content (Socket.line_of value) =? "OK")%string; [reflexivity|].
    destruct (Socket.is_empty (Socket.line_of value)); [apply IH|].
    unfold bind. destruct (parse_line env self _ t) as [[e|a] t1]; [reflexivity|apply IH].
Qed.

Lemma parse_lines_skip_blank pre : forall post (self : Response) t,
  parse_lines env (pre ++ EmptyString :: post) self t
  = parse_lines env (pre ++ post) self t.
Proof.
  induction pre as [|value pre IH]; intros post self t; cbn [app parse_lines].
  - reflexivity.
  - destruct (Socket.content (Socket.line_of value) =? "OK")%string; [reflexivity|].
    destruct (Socket.is_empty (Socket.line_of value)); [apply IH|].
    unfold bind. destruct (parse_line env self _ t) as [[e|a] t1]; [reflexivity|apply IH].
Qed.

Lemma parse_message_lines (first : string) (rest : list string) t :
  _parse_message env (first :: rest) t
  = if Py.startswith first "PROTOCOLINFO"
    then parse_lines env (first :: rest) blank t
    else (inl (ProtocolError "Message is not a PROTOCOLINFO response"), t).
Proof.
  unfold _parse_message, bind. now destruct (Py.startswith first "PROTOCOLINFO").
Qed.

(** X8.  The reply ends at its first OK line: whatever lines follow it are not
    looked at, and a reply that runs out without an OK line is parsed like
    the same reply with one. *)
Theorem reply_ends_at_first_OK
    (first : string) (pre post : list string) (t : list Event) :
  _parse_message env (first :: pre ++ "OK" :: post) t
  = _parse_message env (first :: pre) t.
Proof.
  rewrite !parse_message_lines.
  destruct (Py.startswith first "PROTOCOLINFO"); [|reflexivity].
  apply (parse_lines_stop_at_OK (first :: pre)).
Qed.

(** X9.  Lines that are empty are stepped over without a trace: a reply with an
    empty line behind its first line is parsed like the reply without it. *)
Theorem empty_lines_are_skipped
    (first : string) (pre post : list string) (t : list Event) :
  _parse_message env (first :: pre ++ EmptyString :: post) t
  = _parse_message env (first :: pre ++ post) t.
Proof.
  rewrite !parse_message_lines.
  destruct (Py.startswith first "PROTOCOLINFO"); [|reflexivity].
  apply (parse_lines_skip_blank (first :: pre)).
Qed.

Lemma parse_line_unrecognized (self : Response) value tok l1 t :
  Socket.pop (Socket.line_of value) = inr (tok, l1) ->
  tok <> "PROTOCOLINFO" -> tok <> "AUTH" -> tok <> "VERSION" ->
  parse_line env self (Socket.line_of value) t
  = (inr self,
     (t ++ [Logged DEBUG ("unrecognized PROTOCOLINFO line type '" ++ tok
                          ++ "', ignoring entry: " ++ value)])%list).
Proof.
  intros Hpop H1 H2 H3. unfold parse_line, bind, lift_result. rewrite Hpop.
  apply String.eqb_neq in H1, H2, H3. rewrite H1, H2, H3.
  unfold LOGGER, emit, ret. now rewrite (pop_content _ _ _ Hpop).
Qed.

Lemma parse_lines_skip_unrecognized value tok l1 pre :
  Socket.pop (Socket.line_of value) = inr (tok, l1) ->
  value <> "OK" ->
  tok <> "PROTOCOLINFO" -> tok <> "AUTH" -> tok <> "VERSION" ->
  forall post (self : Response) t,
    fst (parse_lines env (pre ++ value :: post) self t)
    = fst (parse_lines env (pre ++ post) self t).
Proof.
  intros Hpop Hok H1 H2 H3.
  induction pre as [|v pre IH]; intros post self t; cbn [app].
  - cbn [parse_lines]. cbn [Socket.content Socket.line_of].
    destruct (String.eqb_spec value "OK") as [E|_]; [contradiction|].
    change (Socket.mkLine value value) with (Socket.line_of value).
    rewrite (pop_nonempty _ _ _ Hpop). unfold bind.
    rewrite (parse_line_unrecognized self _ _ _ t Hpop H1 H2 H3).
    destruct (parse_lines_traced env post self) as (r & evs & Hrun & _).
    now rewrite !Hrun.
  - cbn [parse_lines].
    destruct (Socket.content (Socket.line_of v) =? "OK")%string; [reflexivity|].
    destruct (Socket.is_empty (Socket.line_of v)); [apply IH|].
    unfold bind. destruct (parse_line env self _ t) as [[e|a] t1]; [reflexivity|apply IH].
Qed.

(** X10.  A line of a type the parser does not know (its leading entry is none of
    PROTOCOLINFO, AUTH and VERSION, and the line is not OK) changes nothing
    in what the parser returns or raises: the reply is parsed like the reply
    without that line. *)
Theorem unrecognized_lines_are_ignored
    (first value tok : string) (l1 : Socket.ControlLine)
    (pre post : list string) (t : list Event) :
  Socket.pop (Socket.line_of value) = inr (tok, l1) ->
  value <> "OK" ->
  tok <> "PROTOCOLINFO" -> tok <> "AUTH" -> tok <> "VERSION" ->
  fst (_parse_message env (first :: pre ++ value :: post) t)
  = fst (_parse_message env (first :: pre ++ post) t).
Proof.
  intros Hpop Hok H1 H2 H3. rewrite !parse_message_lines.
  destruct (Py.startswith first "PROTOCOLINFO"); [|reflexivity].
  apply (parse_lines_skip_unrecognized value tok l1 (first :: pre) Hpop Hok H1 H2 H3).
Qed.

(** *** What the parser raises *)

Lemma parse_PROTOCOLINFO_raises (self : Response) l1 t e t' :
  parse_PROTOCOLINFO self l1 t = (inl e, t') -> exists msg, e = ProtocolError msg.
Proof.
  unfold parse_PROTOCOLINFO. unfold bind at 1.
  destruct (Socket.is_empty l1) eqn:He.
  - rewrite raise_if_true. intros [= <- _]. eauto.
  - rewrite raise_if_false. destruct (pop_total l1 He) as (tok & l2 & Hpop).
    unfold bind at 1. unfold lift_result. rewrite Hpop.
    unfold bind at 1. destruct (Py.isdigit tok); cbn [negb].
    + rewrite raise_if_false. unfold bind, LOGGER, emit, ret.
      destruct (negb (Py.int tok =? 1)); discriminate.
    + rewrite raise_if_true. intros [= <- _]. eauto.
Qed.

Lemma parse_VERSION_outcome (self : Response) l1 t :
  parse_VERSION env self l1 t
  = if Socket.is_next_mapping "Tor" true false l1 then
      match Socket.pop_mapping true false l1 with
      | inr (mapping, _) =>
          match Version env (snd mapping) with
          | inr v => (inr (set_tor_version self (Some v)), t)
          | inl msg => (inl (ProtocolError msg), t)
          end
      | inl e => (inl e, t)
      end
    else (inl (ProtocolError
                 ("PROTOCOLINFO response's VERSION line is missing its mandatory tor version mapping: "
                  ++ Socket.content l1)), t).
Proof.
  unfold parse_VERSION, bind, lift_result.
  destruct (Socket.is_next_mapping "Tor" true false l1); cbn [negb raise_if];
    [|reflexivity].
  unfold ret at 1.
  destruct (Socket.pop_mapping true false l1) as [e|[mapping l2]]; [reflexivity|].
  now destruct (Version env (snd mapping)).
Qed.

Lemma parse_line_raises (self : Response) line t e t' :
  Socket.is_empty line = false ->
  parse_line env self line t = (inl e, t') ->
  (exists msg, e = ProtocolError msg)
  \/ (e = IndexError "no remaining content to parse"
      /\ exists l1, Socket.pop line = inr ("AUTH", l1)
                    /\ Socket.remainder l1 = "METHODS=").
Proof.
  intros He. destruct (pop_total line He) as (tok & l1 & Hpop).
  unfold parse_line, bind, lift_result. rewrite Hpop.
  destruct (tok =? "PROTOCOLINFO")%string.
  { intros H. left. exact (parse_PROTOCOLINFO_raises _ _ _ _ _ H). }
  destruct (String.eqb_spec tok "AUTH") as [->|_].
  { destruct (Socket.is_next_mapping "METHODS" false false l1) eqn:Hm.
    - destruct (Socket.pop_mapping false false l1) as [e0|[mapping l2]] eqn:Hmap.
      + rewrite (parse_AUTH_no_value env self l1 t e0 Hm Hmap). intros [= <- _].
        destruct (pop_mapping_METHODS_fails l1 e0 Hm Hmap) as [-> Hrem]. eauto.
      + destruct (parse_AUTH_present env self l1 t mapping l2 Hm Hmap)
          as (am & um & t1 & r' & t2 & _ & -> & _). discriminate.
    - destruct (parse_AUTH_missing env self l1 t Hm) as (msg & ->).
      intros [= <- _]. eauto. }
  destruct (tok =? "VERSION")%string.
  { rewrite parse_VERSION_outcome.
    destruct (Socket.is_next_mapping "Tor" true false l1) eqn:Hm.
    - destruct (pop_mapping_quoted _ _ _ Hm) as (mapping & l2 & ->).
      destruct (Version env (snd mapping)); [|discriminate].
      intros [= <- _]. eauto.
    - intros [= <- _]. eauto. }
  unfold LOGGER, emit, ret. discriminate.
Qed.

Lemma parse_lines_raises lines : forall (self : Response) t e t',
  parse_lines env lines self t = (inl e, t') ->
  (exists msg, e = ProtocolError msg)
  \/ (e = IndexError "no remaining content to parse"
      /\ exists value, In value lines /\ lists_no_method value).
Proof.
  induction lines as [|value rest IH]; intros self t e t'; cbn [parse_lines].
  - discriminate.
  - assert (Hrest : forall self0 t0,
              parse_lines env rest self0 t0 = (inl e, t') ->
              (exists msg, e = ProtocolError msg)
              \/ (e = IndexError "no remaining content to parse"
                  /\ exists v, In v (value :: rest) /\ lists_no_method v)).
    { intros self0 t0 H. destruct (IH _ _ _ _ H) as [Hp|(He & v & Hv & Hl)];
        [now left|right]. split; [exact He|]. exists v. split; [now right|exact Hl]. }
    destruct (Socket.content (Socket.line_of value) =? "OK")%string; [discriminate|].
    destruct (Socket.is_empty (Socket.line_of value)) eqn:He; [apply Hrest|].
    unfold bind.
    destruct (parse_line env self _ t) as [[e1|a] t1] eqn:Hline.
    + intros [= <- _].
      destruct (parse_line_raises _ _ _ _ _ He Hline) as [Hp|(Hi & l1 & Hpop & Hrem)];
        [now left|right].
      split; [exact Hi|]. exists value. split; [now left|]. now exists l1.
    + apply Hrest.
Qed.

Lemma parse_message_raises
    (msg : Socket.ControlMessage) (t t' : list Event) (e : Exn) :
  _parse_message env msg t = (inl e, t') ->
  (msg <> [] /\ exists text, e = ProtocolError text)
  \/ parser_IndexError msg e.
Proof.
  destruct msg as [|first rest].
  - cbn. intros [= <- _]. right. now left.
  - rewrite parse_message_lines. intros H.
    destruct (Py.startswith first "PROTOCOLINFO").
    + destruct (parse_lines_raises _ _ _ _ _ H) as [Hp|Hi].
      * left. split; [discriminate|exact Hp].
      * right. now right.
    + injection H as <- _. left. split; [discriminate|eauto].
Qed.

(** X11.  Whatever the parser raises is a ProtocolError, on a reply that has
    lines, or one of two IndexErrors: that of taking the first line of a
    reply without lines, or that of [pop_mapping] on an AUTH line of the
    reply that names the METHODS mapping and has nothing behind its equals
    sign. *)
Theorem parser_raises_ProtocolError_or_IndexError
    (msg : Socket.ControlMessage) (t t' : list Event) (e : Exn) :
  _parse_message env msg t = (inl e, t') ->
  (msg <> [] /\ exists text, e = ProtocolError text)
  \/ parser_IndexError msg e.
Proof.
  intros H. destruct (parse_message_raises msg t t' e H) as [[Hm He]|Hi].
  - left. now split.
  - now right.
Qed.

End ParserLines.

(** ** The reply parser, field by field *)

Section ParserFields.

Context {TorVersion : Type} (env : Env TorVersion).

Local Abbreviation Response := (ProtocolInfoResponse TorVersion).

(** *** Methods and unknown names *)

Lemma parse_methods_consistent names am um am' um' t0 t1 :
  parse_methods names (am, um) t0 = (inr (am', um'), t1) ->
  (In UNKNOWN am <-> um <> []) ->
  Forall (fun n => spec_unrecognized n = true) um ->
  (In UNKNOWN am' <-> um' <> [])
  /\ Forall (fun n => spec_unrecognized n = true) um'.
Proof.
  intros Hrun Hiff Hall.
  destruct (parse_methods_spec names am um t0)
    as (am0 & um0 & t2 & Hrun0 & _ & Hu & _ & Hin).
  rewrite Hrun in Hrun0. injection Hrun0 as <- <- <-.
  split.
  - rewrite Hin, Hu. split.
    + intros [H|(n & Hn & Hun)] E; apply app_eq_nil in E as [E1 E2].
      * now apply Hiff in H.
      * assert (Hf : In n (filter spec_unrecognized names))
          by (apply filter_In; auto).
        rewrite E2 in Hf. exact Hf.
    + intros Hne. destruct um as [|u um].
      * right. destruct (filter spec_unrecognized names) as [|n l] eqn:Ef;
          [contradiction|].
        assert (Hf : In n (filter spec_unrecognized names)) by (rewrite Ef; now left).
        apply filter_In in Hf. eauto.
      * left. apply Hiff. discriminate.
  - rewrite Hu. apply Forall_app. split; [exact Hall|].
    apply Forall_forall. intros n Hn. now apply filter_In in Hn.
Qed.

Lemma parse_PROTOCOLINFO_sets (self r' : Response) l1 t t' :
  parse_PROTOCOLINFO self l1 t = (inr r', t') ->
  exists v, r' = set_protocol_version self v.
Proof.
  unfold parse_PROTOCOLINFO, bind, lift_result.
  destruct (raise_if _ _ t) as [[e|[]] t0]; [discriminate|].
  destruct (Socket.pop l1) as [e|[tok l2]]; [discriminate|].
  destruct (Py.isdigit tok); cbn [negb raise_if]; [|discriminate].
  unfold ret at 1.
  destruct (negb (Py.int tok =? 1)); unfold LOGGER, emit, ret;
    intros [= <- _]; eauto.
Qed.

Lemma parse_line_methods (self r' : Response) line t t' :
  parse_line env self line t = (inr r', t') ->
  (auth_methods r' = auth_methods self
   /\ unknown_auth_methods r' = unknown_auth_methods self)
  \/ exists names t1,
       parse_methods names (auth_methods self, unknown_auth_methods self) t
       = (inr (auth_methods r', unknown_auth_methods r'), t1).
Proof.
  unfold parse_line, bind, lift_result.
  destruct (Socket.pop line) as [e|[tok l1]]; [discriminate|].
  destruct (tok =? "PROTOCOLINFO")%string.
  { intros H. apply parse_PROTOCOLINFO_sets in H as (v & ->). now left. }
  destruct (tok =? "AUTH")%string.
  { destruct (Socket.is_next_mapping "METHODS" false false l1) eqn:Hm.
    - destruct (Socket.pop_mapping false false l1) as [e|[mapping l2]] eqn:Hmap;
        [rewrite (parse_AUTH_no_value env self l1 t e Hm Hmap); discriminate|].
      destruct (parse_AUTH_present env self l1 t mapping l2 Hm Hmap)
        as (am & um & t1 & r & t2 & Hms & -> & Ha & Hu & _).
      intros [= <- _]. right. rewrite Ha, Hu. eauto.
    - destruct (parse_AUTH_missing env self l1 t Hm) as (msg & ->). discriminate. }
  destruct (tok =? "VERSION")%string.
  { rewrite parse_VERSION_outcome.
    destruct (Socket.is_next_mapping "Tor" true false l1); [|discriminate].
    destruct (Socket.pop_mapping true false l1) as [e|[mapping l2]]; [discriminate|].
    destruct (Version env (snd mapping)); [discriminate|].
    intros [= <- _]. now left. }
  unfold LOGGER, emit, ret. intros [= <- _]. now left.
Qed.

Lemma parse_lines_consistent lines : forall (self r : Response) t t',
  parse_lines env lines self t = (inr r, t') ->
  methods_consistent self -> methods_consistent r.
Proof.
  induction lines as [|value rest IH]; intros self r t t'; cbn [parse_lines].
  - now intros [= <- _].
  - destruct (Socket.content (Socket.line_of value) =? "OK")%string.
    { now intros [= <- _]. }
    destruct (Socket.is_empty (Socket.line_of value)); [apply IH|].
    unfold bind.
    destruct (parse_line env self _ t) as [[e|a] t1] eqn:Hline; [discriminate|].
    intros Hrest Hself. apply (IH _ _ _ _ Hrest).
    destruct (parse_line_methods _ _ _ _ _ Hline) as [[Ha Hu]|(names & t2 & Hms)].
    + unfold methods_consistent. now rewrite Ha, Hu.
    + destruct Hself as [Hiff Hall].
      exact (parse_methods_consistent _ _ _ _ _ _ _ Hms Hiff Hall).
Qed.

(** X12.  In every response the parser returns, UNKNOWN is among the methods
    exactly when there is an unknown method name, and none of the unknown
    names is NULL, HASHEDPASSWORD or COOKIE. *)
Theorem parsed_methods_are_consistent
    (msg : Socket.ControlMessage) (r : Response) (t t' : list Event) :
  _parse_message env msg t = (inr r, t') -> methods_consistent r.
Proof.
  destruct msg as [|first rest]; [discriminate|].
  rewrite parse_message_lines.
  destruct (Py.startswith first "PROTOCOLINFO"); [|discriminate].
  intros H. apply (parse_lines_consistent _ _ _ _ _ H).
  split; [|constructor]. cbn. split; [contradiction|intros N; now apply N].
Qed.

(** *** VERSION lines *)

(** X13.  A line whose leading entry is VERSION: without a quoted Tor mapping next
    it is refused with ProtocolError; with one, the version constructor
    decides: the version it builds becomes [tor_version], the ValueError it
    raises becomes a ProtocolError with the same message.  Nothing is logged
    either way, and what follows the mapping on the line is not looked at. *)
Theorem version_line_sets_tor_version
    (value : string) (l1 : Socket.ControlLine) (self : Response) (t : list Event) :
  Socket.pop (Socket.line_of value) = inr ("VERSION", l1) ->
  (Socket.is_next_mapping "Tor" true false l1 = false ->
   exists msg, parse_line env self (Socket.line_of value) t
               = (inl (ProtocolError msg), t))
  /\ (forall key torversion l2,
        Socket.is_next_mapping "Tor" true false l1 = true ->
        Socket.pop_mapping true false l1 = inr ((key, torversion), l2) ->
        (forall v, Version env torversion = inr v ->
           parse_line env self (Socket.line_of value) t
           = (inr (set_tor_version self (Some v)), t))
        /\ (forall msg, Version env torversion = inl msg ->
              parse_line env self (Socket.line_of value) t
              = (inl (ProtocolError msg), t))).
Proof.
  intros Hpop. rewrite (parse_line_VERSION _ _ _ _ _ Hpop), parse_VERSION_outcome.
  split.
  - intros ->. eauto.
  - intros key torversion l2 -> ->. cbn [snd]. split; intros x ->; reflexivity.
Qed.

(** *** The cookie path of an AUTH line *)

Lemma parse_AUTH_outcome (self : Response) l1 mapping l2 t :
  Socket.is_next_mapping "METHODS" false false l1 = true ->
  Socket.pop_mapping false false l1 = inr (mapping, l2) ->
  exists am um t1,
    parse_methods (Py.split "," (snd mapping))
      (auth_methods self, unknown_auth_methods self) t = (inr (am, um), t1)
    /\ parse_AUTH env self l1 t
       = if Socket.is_next_mapping "COOKIEFILE" true true l2 then
           match Socket.pop_mapping true true l2 with
           | inr (cookie, _) =>
               _expand_cookie_path env
                 (set_cookie_path (set_methods self am um) (Some (snd cookie)))
                 (get_pid_by_name "tor") t1
           | inl e => (inl e, t1)
           end
         else (inr (set_methods self am um), t1).
Proof.
  intros Hm Hpop.
  destruct (parse_methods_spec (Py.split "," (snd mapping))
              (auth_methods self) (unknown_auth_methods self) t)
    as (am & um & t1 & Hrun & _).
  exists am, um, t1. split; [exact Hrun|].
  unfold parse_AUTH. unfold bind at 1. rewrite Hm. cbn [negb]. rewrite raise_if_false.
  unfold bind at 1. unfold lift_result at 1. rewrite Hpop.
  unfold bind at 1. rewrite Hrun.
  destruct (Socket.is_next_mapping "COOKIEFILE" true true l2); [|reflexivity].
  unfold bind, lift_result.
  now destruct (Socket.pop_mapping true true l2) as [e|[cookie l3]].
Qed.

(** X14.  The cookie path an AUTH line leaves: without a quoted COOKIEFILE mapping
    behind METHODS it is the one from before; with one it is the value of the
    mapping, or that value expanded against the working directory of the
    process named tor, and it is the value itself when that is not
    relative. *)
Theorem auth_line_cookie_path
    (value : string) (l1 l2 : Socket.ControlLine) (mapping : string * string)
    (self r' : Response) (t t' : list Event) :
  Socket.pop (Socket.line_of value) = inr ("AUTH", l1) ->
  Socket.is_next_mapping "METHODS" false false l1 = true ->
  Socket.pop_mapping false false l1 = inr (mapping, l2) ->
  parse_line env self (Socket.line_of value) t = (inr r', t') ->
  (Socket.is_next_mapping "COOKIEFILE" true true l2 = false ->
   cookie_path r' = cookie_path self)
  /\ (forall key path l3,
        Socket.is_next_mapping "COOKIEFILE" true true l2 = true ->
        Socket.pop_mapping true true l2 = inr ((key, path), l3) ->
        (is_relative_path env path = false -> cookie_path r' = Some path)
        /\ (cookie_path r' = Some path
            \/ exists pid cwd,
                 pid_resolver env (get_pid_by_name "tor") = Some pid
                 /\ get_cwd env pid = Some cwd
                 /\ cookie_path r' = Some (expand_path env path cwd))).
Proof.
  intros Hpop Hm Hmap. rewrite (parse_line_AUTH _ _ _ _ _ Hpop).
  destruct (parse_AUTH_outcome self l1 mapping l2 t Hm Hmap)
    as (am & um & t1 & _ & ->).
  intros H. split.
  - intros Hc. rewrite Hc in H. injection H as <- _. reflexivity.
  - intros key path l3 Hc Hcookie. rewrite Hc, Hcookie in H. cbn [snd] in H.
    rewrite expand_cookie_path_outcome in H.
    cbn [cookie_path set_cookie_path] in H.
    destruct (negb (path =? EmptyString)%string); cbn [andb] in H.
    + destruct (is_relative_path env path).
      * split; [discriminate|].
        destruct (pid_resolver env (get_pid_by_name "tor")) as [pid|];
          [|injection H as <- _; cbn; auto].
        destruct (pid =? 0); [injection H as <- _; cbn; auto|].
        destruct (get_cwd env pid) as [cwd|] eqn:Hcwd;
          [|injection H as <- _; cbn; auto].
        destruct (cwd =? EmptyString)%string; injection H as <- _; cbn;
          [now left | right; exists pid, cwd; auto].
      * injection H as <- _. cbn. auto.
    + injection H as <- _. cbn. auto.
Qed.

(** *** What parsing does to the world *)

Lemma parse_methods_tor names lists :
  traced tor_lookup_event (parse_methods names lists).
Proof.
  revert lists. induction names as [|name rest IH]; intros lists; cbn [parse_methods].
  - apply traced_ret.
  - apply traced_bind; [|intros a; apply IH].
    unfold parse_method, LOGGER. destruct lists. repeat tor_step.
Qed.

Lemma parse_line_tor (self : Response) (line : Socket.ControlLine) :
  traced tor_lookup_event (parse_line env self line).
Proof.
  unfold parse_line, parse_PROTOCOLINFO, parse_AUTH, parse_VERSION,
    _expand_cookie_path, resolve_cookie_path, LOGGER.
  repeat tor_step; apply parse_methods_tor.
Qed.

Lemma parse_lines_tor (lines : list string) : forall self : Response,
  traced tor_lookup_event (parse_lines env lines self).
Proof.
  induction lines as [|value rest IH]; intros self; cbn [parse_lines].
  - apply traced_ret.
  - destruct (Socket.content (Socket.line_of value) =? "OK")%string;
      [apply traced_ret|].
    destruct (Socket.is_empty (Socket.line_of value)); [apply IH|].
    apply traced_bind; [apply parse_line_tor | intros a; apply IH].
Qed.

Lemma parse_message_tor (msg : Socket.ControlMessage) :
  traced tor_lookup_event (_parse_message env msg).
Proof.
  unfold _parse_message. destruct msg as [|first rest]; [apply traced_raise|].
  apply traced_bind; [apply traced_raise_if | intros _; apply parse_lines_tor].
Qed.

(** X15.  What the parser returns or raises does not depend on the events that
    came before, and the only events it adds are log records, lookups of the
    process named tor and lookups of a working directory: it never touches
    the file system and never looks a pid up by port or by socket file. *)
Theorem parsing_only_logs_and_looks_up_tor (msg : Socket.ControlMessage) :
  exists out evs,
    (forall t, _parse_message env msg t = (out, (t ++ evs)%list))
    /\ Forall tor_lookup_event evs.
Proof.
  destruct (parse_message_tor msg) as (out & evs & Hrun & Hevs).
  exists out, evs. split; [exact Hrun|exact Hevs].
Qed.

End ParserFields.

(** ** The discovery calls and their socket *)

Lemma connect_ok s0 s1 :
  Socket.connect s0 = (inr tt, s1) ->
  Socket.is_alive s1 = true /\ Socket.sent s1 = Socket.sent s0
  /\ Socket.peer s1 = Socket.peer s0.
Proof.
  unfold Socket.connect. destruct (Socket.connect_fault (Socket.peer s0));
    [discriminate|]. intros [= <-]. auto.
Qed.

Lemma send_ok command s1 s2 :
  Socket.send command s1 = (inr tt, s2) ->
  Socket.is_alive s2 = true
  /\ Socket.sent s2 = (Socket.sent s1 ++ [command])%list
  /\ Socket.replies (Socket.peer s2) = Socket.replies (Socket.peer s1)
  /\ Socket.send_faults (Socket.peer s2) = tl (Socket.send_faults (Socket.peer s1)).
Proof.
  unfold Socket.send. destruct (Socket.is_alive s1) eqn:Ha; cbn [negb];
    [|discriminate].
  destruct (Socket.send_faults (Socket.peer s1)) as [|[msg|] rest] eqn:Ef;
    try discriminate; intros [= <-]; cbn; rewrite ?Ef; auto.
Qed.

Lemma recv_ok s2 m s3 :
  Socket.recv s2 = (inr m, s3) ->
  Socket.is_alive s3 = true
  /\ Socket.sent s3 = Socket.sent s2
  /\ Socket.replies (Socket.peer s2) = Socket.Reply m :: Socket.replies (Socket.peer s3)
  /\ Socket.send_faults (Socket.peer s3) = Socket.send_faults (Socket.peer s2).
Proof.
  unfold Socket.recv. destruct (Socket.is_alive s2) eqn:Ha; cbn [negb];
    [|discriminate].
  destruct (Socket.replies (Socket.peer s2)) as [|[m'|msg|msg] rest] eqn:Er;
    try discriminate; intros [= <- <-]; cbn; auto.
Qed.

Section DiscoverySocket.

Context {TorVersion : Type} (env : Env TorVersion).

Local Abbreviation Response := (ProtocolInfoResponse TorVersion).

(** [get_protocolinfo_by_socket], step by step. *)
Lemma by_socket_outcome (socket_path : string)
    (get_socket : bool) (events : list Event) :
  get_protocolinfo_by_socket env socket_path get_socket events
  = match Socket.connect (ControlSocketFile env socket_path) with
    | (inl e, s1) => (inl e, mkWorld (closed s1) events)
    | (inr _, s1) =>
    match Socket.send "PROTOCOLINFO 1" s1 with
    | (inl e, s2) => (inl e, mkWorld (closed s2) events)
    | (inr _, s2) =>
    match Socket.recv s2 with
    | (inl e, s3) => (inl e, mkWorld (closed s3) events)
    | (inr m, s3) =>
    match convert env m events with
    | (inl e, t0) =>
        (inl e, mkWorld (if is_ControllerError e then closed s3 else s3) t0)
    | (inr r0, t0) =>
    match _expand_cookie_path env r0 (get_pid_by_open_file socket_path) t0 with
    | (inl e, t1) =>
        (inl e, mkWorld (if is_ControllerError e then closed s3 else s3) t1)
    | (inr r, t1) =>
        if get_socket then (inr (r, Some s3), mkWorld s3 t1)
        else (inr (r, None), mkWorld (closed s3) t1)
    end end end end end.
Proof.
  unfold get_protocolinfo_by_socket, try_except, bind, on_socket, on_trace.
  cbn [control_socket trace].
  destruct (Socket.connect _) as [[e|[]] s1] eqn:Hc.
  { apply connect_raises in Hc. now rewrite Hc. }
  cbn [control_socket trace].
  destruct (Socket.send _ s1) as [[e|[]] s2] eqn:Hs.
  { apply send_raises in Hs. now rewrite Hs. }
  cbn [control_socket trace].
  destruct (Socket.recv s2) as [[e|m] s3] eqn:Hr.
  { apply recv_raises in Hr. now rewrite Hr. }
  cbn [control_socket trace].
  destruct (convert env m events) as [[e|r0] t0].
  { now destruct (is_ControllerError e). }
  cbn [control_socket trace].
  destruct (_expand_cookie_path env r0 _ t0) as [[e|r] t1].
  - now destruct (is_ControllerError e).
  - unfold finish, bind, current_socket, on_socket, ret.
    now destruct get_socket.
Qed.

Lemma by_port_is_discovery control_addr control_port get_socket events :
  get_protocolinfo_by_port env control_addr control_port get_socket events
  = discovery_outcome env (ControlPort env control_addr control_port)
      (resolve_by_port env control_addr control_port) get_socket events.
Proof.
  rewrite by_port_outcome. unfold discovery_outcome, resolve_by_port.
  destruct (Socket.connect _) as [[e|[]] s1]; [reflexivity|].
  destruct (Socket.send _ s1) as [[e|[]] s2]; [reflexivity|].
  destruct (Socket.recv s2) as [[e|m] s3]; [reflexivity|].
  destruct (convert env m events) as [[e|r0] t0]; [reflexivity|].
  now destruct (control_addr =? "127.0.0.1")%string.
Qed.

Lemma by_socket_is_discovery socket_path get_socket events :
  get_protocolinfo_by_socket env socket_path get_socket events
  = discovery_outcome env (ControlSocketFile env socket_path)
      (resolve_by_socket env socket_path) get_socket events.
Proof. apply by_socket_outcome. Qed.

Lemma resolve_by_port_returns control_addr control_port (r : Response) t :
  exists r' t', resolve_by_port env control_addr control_port r t = (inr r', t').
Proof.
  unfold resolve_by_port. destruct (control_addr =? "127.0.0.1")%string.
  - destruct (expand_cookie_path_returns env r (get_pid_by_port control_port) t)
      as (p & t' & ->). eauto.
  - unfold ret. eauto.
Qed.

Lemma resolve_by_socket_returns socket_path (r : Response) t :
  exists r' t', resolve_by_socket env socket_path r t = (inr r', t').
Proof.
  unfold resolve_by_socket.
  destruct (expand_cookie_path_returns env r (get_pid_by_open_file socket_path) t)
    as (p & t' & ->). eauto.
Qed.

(** A discovery that returns: the query is the one command that was sent,
    the peer has one reply and one send outcome less in store, and the socket
    is handed over open or closed and kept. *)
Lemma discovery_returns s0 resolve get_socket events (r : Response) sock w' :
  discovery_outcome env s0 resolve get_socket events = (inr (r, sock), w') ->
  Socket.sent (control_socket w') = (Socket.sent s0 ++ ["PROTOCOLINFO 1"])%list
  /\ Socket.replies (Socket.peer (control_socket w'))
     = tl (Socket.replies (Socket.peer s0))
  /\ Socket.send_faults (Socket.peer (control_socket w'))
     = tl (Socket.send_faults (Socket.peer s0))
  /\ (if get_socket
      then sock = Some (control_socket w')
           /\ Socket.is_alive (control_socket w') = true
      else sock = None /\ Socket.is_alive (control_socket w') = false).
Proof.
  unfold discovery_outcome.
  destruct (Socket.connect s0) as [[e|[]] s1] eqn:Hc; [discriminate|].
  destruct (Socket.send _ s1) as [[e|[]] s2] eqn:Hs; [discriminate|].
  destruct (Socket.recv s2) as [[e|m] s3] eqn:Hr; [discriminate|].
  destruct (connect_ok _ _ Hc) as (_ & Hc1 & Hc2).
  destruct (send_ok _ _ _ Hs) as (_ & Hs1 & Hs2 & Hs3).
  destruct (recv_ok _ _ _ Hr) as (Ha & Hr1 & Hr2 & Hr3).
  destruct (convert env m events) as [[e|r0] t0]; [discriminate|].
  destruct (resolve r0 t0) as [[e|r1] t1]; [discriminate|].
  assert (Hrep : Socket.replies (Socket.peer s3) = tl (Socket.replies (Socket.peer s0))).
  { rewrite <- Hc2, <- Hs2, Hr2. reflexivity. }
  assert (Hsf : Socket.send_faults (Socket.peer s3)
                = tl (Socket.send_faults (Socket.peer s0))).
  { now rewrite Hr3, Hs3, Hc2. }
  assert (Hsent : Socket.sent s3 = (Socket.sent s0 ++ ["PROTOCOLINFO 1"])%list).
  { now rewrite Hr1, Hs1, Hc1. }
  destruct get_socket; intros [= <- <- <-]; cbn; auto.
Qed.

(** A discovery that ends in an exception other than a controller error,
    when the resolution step cannot raise: the parser raised an IndexError
    on the reply. *)
Lemma discovery_other_error s0 resolve get_socket events e w' :
  (forall (r : Response) t, exists r' t', resolve r t = (inr r', t')) ->
  discovery_outcome env s0 resolve get_socket events = (inl e, w') ->
  is_ControllerError e = false ->
  (exists m, hd_error (Socket.replies (Socket.peer s0)) = Some (Socket.Reply m)
             /\ parser_IndexError m e)
  /\ Socket.is_alive (control_socket w') = true
  /\ Socket.sent (control_socket w') = (Socket.sent s0 ++ ["PROTOCOLINFO 1"])%list.
Proof.
  intros Hres. unfold discovery_outcome.
  destruct (Socket.connect s0) as [[e0|[]] s1] eqn:Hc.
  { intros [= <- _] He. apply connect_raises in Hc. congruence. }
  destruct (Socket.send _ s1) as [[e0|[]] s2] eqn:Hs.
  { intros [= <- _] He. apply send_raises in Hs. congruence. }
  destruct (Socket.recv s2) as [[e0|m] s3] eqn:Hr.
  { intros [= <- _] He. apply recv_raises in Hr. congruence. }
  pose proof (first_reply _ _ _ _ _ _ Hc Hs Hr) as Hm.
  destruct (connect_ok _ _ Hc) as (_ & Hc1 & _).
  destruct (send_ok _ _ _ Hs) as (_ & Hs1 & _).
  destruct (recv_ok _ _ _ Hr) as (Ha & Hr1 & _).
  destruct (convert env m events) as [[e0|r0] t0] eqn:Hconv.
  - intros [= <- <-] He. rewrite He. cbn [control_socket].
    destruct (parse_message_raises env _ _ _ _ Hconv)
      as [[_ (text & ->)]|Hi]; [discriminate|].
    split; [now exists m|]. split; [exact Ha|]. now rewrite Hr1, Hs1, Hc1.
  - destruct (Hres r0 t0) as (r' & t' & ->).
    destruct get_socket; discriminate.
Qed.

End DiscoverySocket.

Section DiscoveryCalls.

Context {TorVersion : Type} (env : Env TorVersion).

Local Abbreviation Response := (ProtocolInfoResponse TorVersion).

(** X16.  [get_protocolinfo_by_socket] always runs the resolution by socket file:
    the response it returns is what [_expand_cookie_path] with the lookup by
    open file made of the parsed first reply, whatever the socket path is. *)
Theorem socket_discovery_resolves_by_open_file
    (socket_path : string) (get_socket : bool) (events : list Event)
    (r : Response) (sock : option Socket.ControlSocket) (w' : World) :
  get_protocolinfo_by_socket env socket_path get_socket events
  = (inr (r, sock), w') ->
  exists m r0 t0,
    hd_error (Socket.replies (file_peer env socket_path)) = Some (Socket.Reply m)
    /\ convert env m events = (inr r0, t0)
    /\ _expand_cookie_path env r0 (get_pid_by_open_file socket_path) t0
       = (inr r, trace w').
Proof.
  rewrite by_socket_outcome.
  set (s0 := ControlSocketFile env socket_path).
  change (file_peer env socket_path) with (Socket.peer s0).
  destruct (Socket.connect s0) as [[e|[]] s1] eqn:Hc; [discriminate|].
  destruct (Socket.send _ s1) as [[e|[]] s2] eqn:Hs; [discriminate|].
  destruct (Socket.recv s2) as [[e|m] s3] eqn:Hr; [discriminate|].
  pose proof (first_reply _ _ _ _ _ _ Hc Hs Hr) as Hm.
  destruct (convert env m events) as [[e|r0] t0] eqn:Hconv; [discriminate|].
  destruct (_expand_cookie_path env r0 _ t0) as [[e|r1] t1] eqn:He; [discriminate|].
  destruct get_socket; intros [= <- _ <-]; exists m, r0, t0; auto.
Qed.

(** X17.  A discovery call that returns has sent the one command PROTOCOLINFO 1;
    with [get_socket] it returns the socket, still open, and without it
    returns no socket and has closed the one it used. *)
Theorem discovery_hands_over_or_closes
    (control_addr : string) (control_port : Z) (socket_path : string)
    (get_socket : bool) (events : list Event)
    (r : Response) (sock : option Socket.ControlSocket) (w' : World) :
  get_protocolinfo_by_port env control_addr control_port get_socket events
  = (inr (r, sock), w')
  \/ get_protocolinfo_by_socket env socket_path get_socket events
     = (inr (r, sock), w') ->
  Socket.sent (control_socket w') = ["PROTOCOLINFO 1"]
  /\ (if get_socket
      then sock = Some (control_socket w')
           /\ Socket.is_alive (control_socket w') = true
      else sock = None /\ Socket.is_alive (control_socket w') = false).
Proof.
  rewrite by_port_is_discovery, by_socket_is_discovery.
  intros [H|H]; apply discovery_returns in H as (Hsent & _ & _ & Hsock);
    (split; [exact Hsent|exact Hsock]).
Qed.

(** X18.  A discovery call ends in an exception that is not a controller error
    only when the parser raised an IndexError on the reply it received: the
    reply has no lines, or one of its AUTH lines names the METHODS mapping
    and has nothing behind its equals sign.  The query has then been sent and
    the socket is left open, whatever [get_socket] was, since only controller
    errors make the call close it. *)
Theorem discovery_leaves_socket_open_on_IndexError
    (control_addr : string) (control_port : Z) (socket_path : string)
    (get_socket : bool) (events : list Event) (e : Exn) (w' : World) :
  is_ControllerError e = false ->
  (get_protocolinfo_by_port env control_addr control_port get_socket events
   = (inl e, w') ->
   (exists m,
      hd_error (Socket.replies (port_peer env control_addr control_port))
      = Some (Socket.Reply m)
      /\ parser_IndexError m e)
   /\ Socket.is_alive (control_socket w') = true
   /\ Socket.sent (control_socket w') = ["PROTOCOLINFO 1"])
  /\ (get_protocolinfo_by_socket env socket_path get_socket events
      = (inl e, w') ->
      (exists m,
         hd_error (Socket.replies (file_peer env socket_path))
         = Some (Socket.Reply m)
         /\ parser_IndexError m e)
      /\ Socket.is_alive (control_socket w') = true
      /\ Socket.sent (control_socket w') = ["PROTOCOLINFO 1"]).
Proof.
  intros He. rewrite by_port_is_discovery, by_socket_is_discovery. split; intros H.
  - exact (discovery_other_error env _ _ _ _ _ _
             (resolve_by_port_returns env control_addr control_port) H He).
  - exact (discovery_other_error env _ _ _ _ _ _
             (resolve_by_socket_returns env socket_path) H He).
Qed.

(** X19.  Discovery and handshake compose: on the socket a discovery call hands
    over, when the peer lets the next command through and answers it with
    [m], the handshakes without a cookie succeed exactly when [str m] is OK
    and otherwise raise ValueError carrying [str m]. *)
Theorem handshake_after_discovery
    (control_addr : string) (control_port : Z) (socket_path : string)
    (events : list Event) (r : Response) (s : Socket.ControlSocket) (w' : World)
    (peer : Socket.Peer) (m : Socket.ControlMessage) (password : string) :
  (get_protocolinfo_by_port env control_addr control_port true events
   = (inr (r, Some s), w')
   /\ peer = port_peer env control_addr control_port)
  \/ (get_protocolinfo_by_socket env socket_path true events
      = (inr (r, Some s), w')
      /\ peer = file_peer env socket_path) ->
  hd None (tl (Socket.send_faults peer)) = None ->
  hd_error (tl (Socket.replies peer)) = Some (Socket.Reply m) ->
  answers_next s m
  /\ fst (authenticate_none (mkWorld s (trace w'))) = verdict m
  /\ fst (authenticate_password password (mkWorld s (trace w'))) = verdict m.
Proof.
  rewrite by_port_is_discovery, by_socket_is_discovery.
  intros Hrun Hsf Hrep.
  assert (Hn : answers_next s m).
  { destruct Hrun as [[H ->]|[H ->]];
      apply discovery_returns in H as (_ & Hr & Hs & [= ->] & Ha);
      (split; [exact Ha|]); rewrite Hr, Hs; auto. }
  split; [exact Hn|]. split.
  - rewrite authenticate_none_round_trip.
    destruct (round_trip (mkWorld s (trace w')) m "AUTHENTICATE" Hn) as (s' & -> & _).
    reflexivity.
  - rewrite authenticate_password_round_trip.
    match goal with |- context [round_trip_of ?c ?w0] =>
      destruct (round_trip w0 m c Hn) as (s' & -> & _) end.
    reflexivity.
Qed.

End DiscoveryCalls.

(** ** The further properties at work in the two concrete worlds *)

Lemma handshake_exceptions_witness :
  (exists msg, ValueError "515 Bad authentication" = ValueError msg)
  \/ is_ControllerError (ValueError "515 Bad authentication") = true.
Proof.
  apply (proj1 (handshake_exceptions Sample.env "secret" "/nowhere"
                  (Sample.answering ["515 Bad authentication"])
                  (snd (authenticate_none
                          (Sample.answering ["515 Bad authentication"])))
                  (ValueError "515 Bad authentication"))).
  reflexivity.
Defined.

Lemma unreadable_cookie_is_OSError_witness :
  exists msg,
    authenticate_cookie Daemon.env "/root/.tor/control_auth_cookie"
      (Sample.answering ["OK"])
    = (inl (OSError msg),
       mkWorld (control_socket (Sample.answering ["OK"]))
               ([] ++ [PathExists "/root/.tor/control_auth_cookie";
                       GetSize "/root/.tor/control_auth_cookie";
                       FileRead "/root/.tor/control_auth_cookie"]))
    /\ read_file Daemon.env "/root/.tor/control_auth_cookie" []
       = (inl (IOError msg), ([] ++ [FileRead "/root/.tor/control_auth_cookie"])%list).
Proof.
  apply (unreadable_cookie_is_OSError Daemon.env "/root/.tor/control_auth_cookie"
           (mkFile 32 None) (Sample.answering ["OK"]));
    reflexivity.
Defined.

Lemma password_is_sent_quoted_witness :
  drop_quote_escapes (Py.escape_quotes (String "a" (String Py.dquote "b")))
  = String "a" (String Py.dquote "b")
  /\ String "a" (String Py.dquote "b") = String "a" (String Py.dquote "b").
Proof.
  destruct (password_is_sent_quoted (String "a" (String Py.dquote "b"))
              (Sample.answering ["OK"]))
    as (_ & _ & Hback & Hinj).
  split; [exact Hback|].
  apply (Hinj (String "a" (String Py.dquote "b"))). reflexivity.
Defined.

Lemma cookie_is_sent_as_hex_witness :
  exists argument,
    (Socket.sent (control_socket
                    (snd (authenticate_cookie Sample.env
                            "/var/lib/tor/control_auth_cookie"
                            (Sample.answering ["OK"]))))
     = Socket.sent (control_socket (Sample.answering ["OK"]))
     \/ Socket.sent (control_socket
                       (snd (authenticate_cookie Sample.env
                               "/var/lib/tor/control_auth_cookie"
                               (Sample.answering ["OK"]))))
        = (Socket.sent (control_socket (Sample.answering ["OK"]))
           ++ [("AUTHENTICATE " ++ argument)%string])%list)
    /\ String.length argument = (2 * String.length Sample.cookie)%nat
    /\ all_lower_hex argument = true
    /\ a2b_hex argument = Sample.cookie.
Proof.
  apply (cookie_is_sent_as_hex Sample.env "/var/lib/tor/control_auth_cookie"
           (mkFile 32 (Some Sample.cookie)) Sample.cookie
           (Sample.answering ["OK"]));
    reflexivity.
Defined.

Lemma expand_cookie_path_touches_only_the_path_witness :
  exists p t',
    _expand_cookie_path Sample.env (@blank string) (get_pid_by_port 9051) []
    = (inr (set_cookie_path blank p), t')
    /\ p = None.
Proof.
  destruct (expand_cookie_path_touches_only_the_path Sample.env
              (@blank string) (get_pid_by_port 9051) [])
    as (p & t' & Hrun & Hiff).
  exists p, t'. split; [exact Hrun|]. apply Hiff. reflexivity.
Defined.

Lemma unrecognized_lines_are_ignored_witness :
  fst (_parse_message Sample.env
         ("PROTOCOLINFO 1" :: [] ++ "FUTURE Feature=1" :: ["AUTH METHODS=NULL"; "OK"])
         [])
  = fst (_parse_message Sample.env
           ("PROTOCOLINFO 1" :: [] ++ ["AUTH METHODS=NULL"; "OK"]) []).
Proof.
  apply (unrecognized_lines_are_ignored Sample.env "PROTOCOLINFO 1"
           "FUTURE Feature=1" "FUTURE"
           (Socket.mkLine "FUTURE Feature=1" "Feature=1")
           [] ["AUTH METHODS=NULL"; "OK"] []);
    [reflexivity | discriminate | discriminate | discriminate | discriminate].
Defined.

Lemma parser_raises_ProtocolError_or_IndexError_witness :
  _parse_message Sample.env ["PROTOCOLINFO 1"; "AUTH METHODS="; "OK"] []
  = (inl (IndexError "no remaining content to parse"), [])
  /\ ((["PROTOCOLINFO 1"; "AUTH METHODS="; "OK"] <> []
       /\ exists text, IndexError "no remaining content to parse" = ProtocolError text)
      \/ parser_IndexError ["PROTOCOLINFO 1"; "AUTH METHODS="; "OK"]
           (IndexError "no remaining content to parse")).
Proof.
  split; [reflexivity|].
  apply (parser_raises_ProtocolError_or_IndexError Sample.env
           ["PROTOCOLINFO 1"; "AUTH METHODS="; "OK"] [] []).
  reflexivity.
Defined.

Lemma parsed_methods_are_consistent_witness :
  methods_consistent
    (mkResponse (Some 1) (@None string) None [NONE; UNKNOWN] ["FOO"; "BAR"]).
Proof.
  apply (parsed_methods_are_consistent Sample.env
           ["PROTOCOLINFO 1"; "AUTH METHODS=NULL,FOO,BAR"; "OK"]
           (mkResponse (Some 1) None None [NONE; UNKNOWN] ["FOO"; "BAR"])
           []
           (snd (_parse_message Sample.env
                   ["PROTOCOLINFO 1"; "AUTH METHODS=NULL,FOO,BAR"; "OK"] []))).
  reflexivity.
Defined.

Lemma version_line_sets_tor_version_witness :
  parse_line Sample.env blank
    (Socket.line_of ("VERSION Tor=" ++ Sample.quoted "0.2.1.30")) []
  = (inr (set_tor_version blank (Some "0.2.1.30")), [])
  /\ exists msg,
       parse_line Sample.env blank (Socket.line_of "VERSION 0.2.1.30") []
       = (inl (ProtocolError msg), []).
Proof.
  split.
  - apply (proj1 (proj2 (version_line_sets_tor_version Sample.env
                           ("VERSION Tor=" ++ Sample.quoted "0.2.1.30")
                           (Socket.mkLine ("VERSION Tor=" ++ Sample.quoted "0.2.1.30")
                                          ("Tor=" ++ Sample.quoted "0.2.1.30"))
                           blank [] eq_refl)
                        "Tor" "0.2.1.30"
                        (Socket.mkLine ("VERSION Tor=" ++ Sample.quoted "0.2.1.30")
                                       EmptyString)
                        eq_refl eq_refl)).
    reflexivity.
  - apply (proj1 (version_line_sets_tor_version Sample.env "VERSION 0.2.1.30"
                    (Socket.mkLine "VERSION 0.2.1.30" "0.2.1.30")
                    blank [] eq_refl)).
    reflexivity.
Defined.

Lemma auth_line_cookie_path_witness :
  cookie_path
    (mkResponse (@None Z) (@None string) (Some "/tmp/x") [COOKIE] []) = Some "/tmp/x".
Proof.
  apply (proj1 (proj2 (auth_line_cookie_path Sample.env
                         ("AUTH METHODS=COOKIE COOKIEFILE=" ++ Sample.quoted "/tmp/x")
                         (Socket.mkLine
                            ("AUTH METHODS=COOKIE COOKIEFILE=" ++ Sample.quoted "/tmp/x")
                            ("METHODS=COOKIE COOKIEFILE=" ++ Sample.quoted "/tmp/x"))
                         (Socket.mkLine
                            ("AUTH METHODS=COOKIE COOKIEFILE=" ++ Sample.quoted "/tmp/x")
                            ("COOKIEFILE=" ++ Sample.quoted "/tmp/x"))
                         ("METHODS", "COOKIE")
                         blank
                         (mkResponse None None (Some "/tmp/x") [COOKIE] [])
                         [] [] eq_refl eq_refl eq_refl eq_refl)
                      "COOKIEFILE" "/tmp/x"
                      (Socket.mkLine
                         ("AUTH METHODS=COOKIE COOKIEFILE=" ++ Sample.quoted "/tmp/x")
                         EmptyString)
                      eq_refl eq_refl)).
  reflexivity.
Defined.

Lemma socket_discovery_resolves_by_open_file_witness :
  exists m r0 t0,
    hd_error (Socket.replies (file_peer Daemon.env "/var/run/tor/control"))
    = Some (Socket.Reply m)
    /\ convert Daemon.env m [] = (inr r0, t0)
    /\ _expand_cookie_path Daemon.env r0
         (get_pid_by_open_file "/var/run/tor/control") t0
       = (inr (mkResponse (Some 1) (Some "0.2.1.30")
                          (Some "/var/lib/tor/control_auth_cookie") [COOKIE] []),
          trace (snd (get_protocolinfo_by_socket Daemon.env
                        "/var/run/tor/control" false []))).
Proof.
  apply (socket_discovery_resolves_by_open_file Daemon.env
           "/var/run/tor/control" false []
           (mkResponse (Some 1) (Some "0.2.1.30")
                       (Some "/var/lib/tor/control_auth_cookie") [COOKIE] [])
           None).
  reflexivity.
Defined.

Lemma discovery_hands_over_or_closes_witness :
  let w' := snd (get_protocolinfo_by_socket Daemon.env
                   "/var/run/tor/control" true []) in
  Socket.sent (control_socket w') = ["PROTOCOLINFO 1"]
  /\ Some (control_socket w') = Some (control_socket w')
  /\ Socket.is_alive (control_socket w') = true.
Proof.
  apply (discovery_hands_over_or_closes Daemon.env "127.0.0.1" 9051
           "/var/run/tor/control" true []
           (mkResponse (Some 1) (Some "0.2.1.30")
                       (Some "/var/lib/tor/control_auth_cookie") [COOKIE] [])
           (Some (control_socket
                    (snd (get_protocolinfo_by_socket Daemon.env
                            "/var/run/tor/control" true []))))
           (snd (get_protocolinfo_by_socket Daemon.env
                   "/var/run/tor/control" true []))).
  right. reflexivity.
Defined.

Lemma discovery_leaves_socket_open_on_IndexError_witness :
  let e := IndexError "no remaining content to parse" in
  let run := get_protocolinfo_by_port Daemon.env "127.0.0.1" 9052 false [] in
  fst run = inl e
  /\ (exists m,
        hd_error (Socket.replies (port_peer Daemon.env "127.0.0.1" 9052))
        = Some (Socket.Reply m)
        /\ parser_IndexError m e)
  /\ Socket.is_alive (control_socket (snd run)) = true
  /\ Socket.sent (control_socket (snd run)) = ["PROTOCOLINFO 1"].
Proof.
  intros e run. split; [reflexivity|].
  apply (proj1 (discovery_leaves_socket_open_on_IndexError Daemon.env
                  "127.0.0.1" 9052 "/var/run/tor/control" false [] e (snd run)
                  eq_refl)).
  reflexivity.
Defined.

Lemma handshake_after_discovery_witness :
  let out := get_protocolinfo_by_port Daemon.env "127.0.0.1" 9051 true [] in
  let s := control_socket (snd out) in
  answers_next s ["OK"]
  /\ fst (authenticate_none (mkWorld s (trace (snd out)))) = verdict ["OK"]
  /\ fst (authenticate_password "secret" (mkWorld s (trace (snd out))))
     = verdict ["OK"].
Proof.
  apply (handshake_after_discovery Daemon.env "127.0.0.1" 9051
           "/var/run/tor/control" []
           (mkResponse (Some 1) (Some "0.2.1.30")
                       (Some "/var/lib/tor/control_auth_cookie") [COOKIE] [])
           (control_socket
              (snd (get_protocolinfo_by_port Daemon.env "127.0.0.1" 9051 true [])))
           (snd (get_protocolinfo_by_port Daemon.env "127.0.0.1" 9051 true []))
           Daemon.talking ["OK"] "secret").
  - left. split; reflexivity.
  - reflexivity.
  - reflexivity.
Defined.

(** ** Discovery and the file system *)

Section DiscoveryFiles.

Context {TorVersion : Type} (env : Env TorVersion).

Local Abbreviation Response := (ProtocolInfoResponse TorVersion).

Lemma tor_lookup_no_file_access (e : Event) : tor_lookup_event e -> no_file_access e.
Proof. destruct e; cbn; auto. Qed.

Lemma convert_no_file_access (m : Socket.ControlMessage) :
  traced no_file_access (convert env m).
Proof.
  destruct (parse_message_tor env m) as (out & evs & Hrun & Hevs).
  exists out, evs. split; [exact Hrun|].
  eapply Forall_impl; [apply tor_lookup_no_file_access|exact Hevs].
Qed.

Lemma expand_no_file_access (r : Response) (q : PidQuery) :
  traced no_file_access (_expand_cookie_path env r q).
Proof.
  unfold _expand_cookie_path, resolve_cookie_path, LOGGER. repeat tor_step.
Qed.

Lemma discovery_trace (P : Event -> Prop) s0 resolve get_socket events :
  (forall m, traced P (convert env m)) ->
  (forall r : Response, traced P (resolve r)) ->
  exists evs,
    trace (snd (discovery_outcome env s0 resolve get_socket events))
    = (events ++ evs)%list
    /\ Forall P evs.
Proof.
  intros Hconv Hres.
  assert (Hnil : exists evs, events = (events ++ evs)%list /\ Forall P evs).
  { exists []. now rewrite app_nil_r. }
  unfold discovery_outcome.
  destruct (Socket.connect s0) as [[e|[]] s1]; [exact Hnil|].
  destruct (Socket.send _ s1) as [[e|[]] s2]; [exact Hnil|].
  destruct (Socket.recv s2) as [[e|m] s3]; [exact Hnil|].
  destruct (convert env m events) as [out0 t0] eqn:Hc.
  destruct (traced_run _ _ _ _ (Hconv m) Hc) as (evs0 & -> & Hevs0 & _).
  destruct out0 as [e|r0]; [cbn [snd trace]; eauto|].
  destruct (resolve r0 _) as [out1 t1] eqn:Hr.
  destruct (traced_run _ _ _ _ (Hres r0) Hr) as (evs1 & -> & Hevs1 & _).
  assert (Hboth : exists evs, ((events ++ evs0) ++ evs1)%list = (events ++ evs)%list
                              /\ Forall P evs).
  { exists (evs0 ++ evs1)%list. rewrite app_assoc. split; [reflexivity|].
    apply Forall_app. now split. }
  destruct out1 as [e|r1]; [exact Hboth|].
  destruct get_socket; exact Hboth.
Qed.

(** X20.  The discovery calls never touch the file system: whatever cookie path
    they report, they have not checked that the file exists, asked for its
    size or read it. *)
Theorem discovery_never_touches_files
    (control_addr : string) (control_port : Z) (socket_path : string)
    (get_socket : bool) (events : list Event) :
  (exists evs,
     trace (snd (get_protocolinfo_by_port env control_addr control_port
                   get_socket events))
     = (events ++ evs)%list
     /\ Forall no_file_access evs)
  /\ (exists evs,
        trace (snd (get_protocolinfo_by_socket env socket_path get_socket events))
        = (events ++ evs)%list
        /\ Forall no_file_access evs).
Proof.
  rewrite by_port_is_discovery, by_socket_is_discovery.
  split; apply discovery_trace; try apply convert_no_file_access; intros r.
  - unfold resolve_by_port. destruct (control_addr =? "127.0.0.1")%string;
      [apply expand_no_file_access | apply traced_ret].
  - apply expand_no_file_access.
Qed.

End DiscoveryFiles.
